(** * go-exchange-server: admin contact controller, admin e-mail lookup and
    profile update, as a shallow embedding.

    Sources embedded here:
    - [content-server/src/api/models/adminContactModel.ts] (the schema),
    - the admin contact controller ([getContacts], [addContact],
      [updateContact], [deleteContact], [reorderContacts]),
    - [getAdminEmails].

    The handlers are asynchronous functions over a document database.  They
    are embedded as functions in a state-and-exception monad over a [World]
    that holds the two collections, the clock the persistence layer stamps
    documents with, and a fault script that says which of the coming
    database round trips is rejected by the driver. *)

From Stdlib Require Import ZArith Ascii String.
From stdpp Require Import gmap strings list sorting pretty infinite.

Local Open Scope Z_scope.

(** ** JavaScript values and strings *)

(** The values the handlers compute with where the language is dynamically
    typed: the result of [Map.prototype.get] and of [||]. *)
Inductive jsval : Type :=
  | JUndefined
  | JNull
  | JString (s : string).

Global Instance jsval_eq_dec : EqDecision jsval.
Proof. solve_decision. Defined.

(** An optional property read from an object: absent reads as [undefined]. *)
Definition to_js (o : option string) : jsval :=
  match o with
  | Some s => JString s
  | None => JUndefined
  end.

(** [ToBoolean]: [undefined], [null] and the empty string are falsy. *)
Definition truthy (v : jsval) : bool :=
  match v with
  | JString s => negb (String.eqb s "")
  | _ => false
  end.

(** [a || b] *)
Definition js_or (a b : jsval) : jsval := if truthy a then a else b.

(** [!x] on an optional string property. *)
Definition js_not (o : option string) : bool := negb (truthy (to_js o)).

(** Strings are sequences of 8-bit code units.  [String.prototype.trim]
    removes WhiteSpace and LineTerminator code units from both ends; in this
    range they are TAB, LF, VT, FF, CR, SP and NBSP. *)
Definition is_white_space (a : ascii) : bool :=
  let n := N_of_ascii a in
  bool_decide (n = 9 ∨ n = 10 ∨ n = 11 ∨ n = 12 ∨ n = 13 ∨ n = 32 ∨ n = 160)%N.

Fixpoint trim_start (s : string) : string :=
  match s with
  | EmptyString => EmptyString
  | String a s' => if is_white_space a then trim_start s' else s
  end.

Definition trim_end (s : string) : string :=
  String.rev (trim_start (String.rev s)).

Definition trim (s : string) : string := trim_end (trim_start s).

(** [Array.prototype.includes] on numbers. *)
Definition includes (l : list Z) (x : Z) : bool := existsb (Z.eqb x) l.

(** ** Object ids *)

Definition is_hex_digit (a : ascii) : bool :=
  let n := N_of_ascii a in
  bool_decide (48 ≤ n ≤ 57 ∨ 65 ≤ n ≤ 70 ∨ 97 ≤ n ≤ 102)%N.

Fixpoint all_hex (s : string) : bool :=
  match s with
  | EmptyString => true
  | String a s' => is_hex_digit a && all_hex s'
  end.

(** The cast of a string to [ObjectId], which the persistence layer applies
    to the [_id] of a query and to a [user] reference: it succeeds for the
    strings of 24 hexadecimal digits, and for no other string. *)
Definition castable (s : string) : bool :=
  (String.length s =? 24)%nat && all_hex s.

(** The ids the persistence layer generates, in the order in which they are
    tried: the decimal numeral of [n], filled up in front with the
    hexadecimal digit [a] to 24 digits. *)
Fixpoint fill (k : nat) (s : string) : string :=
  match k with
  | O => s
  | S k => String "a" (fill k s)
  end.

Definition object_id_of_nat (n : nat) : string :=
  fill (24 - String.length (pretty n)) (pretty n).

Fixpoint unfill (s : string) : string :=
  match s with
  | EmptyString => EmptyString
  | String c s' => if Ascii.eqb c "a" then unfill s' else s
  end.

Global Instance object_id_of_nat_inj : Inj (=) (=) object_id_of_nat.
Proof.
  assert (Hgo : ∀ (x : N) (s : string), (0 < x)%N →
            ∃ c rest, pretty_N_go x s = String c rest ∧ c ≠ "a"%char).
  { intros x. induction (N.lt_wf_0 x) as [x _ IH]. intros s Hx.
    rewrite pretty_N_go_step by done.
    destruct (decide (x `div` 10 = 0)%N) as [Hz|Hz].
    - rewrite Hz, pretty_N_go_0. eexists _, _. split; [reflexivity|].
      generalize (x `mod` 10)%N. intros y. compute.
      by repeat (discriminate || case_match).
    - apply IH; [by apply N.div_lt | by apply N.neq_0_lt_0]. }
  assert (Hhead : ∀ n : nat, ∃ c rest, pretty n = String c rest ∧ c ≠ "a"%char).
  { intros n. unfold pretty, pretty_nat, pretty, pretty_N.
    destruct (decide (N.of_nat n = 0%N)) as [_|Hn].
    - by eexists _, _.
    - apply Hgo. lia. }
  assert (Hun : ∀ (k : nat) (n : nat), unfill (fill k (pretty n)) = pretty n).
  { intros k n. induction k as [|k IHk]; simpl; [|done].
    destruct (Hhead n) as (c & rest & -> & Hc). simpl.
    by destruct (Ascii.eqb_spec c "a"). }
  intros n1 n2 Heq. unfold object_id_of_nat in Heq.
  apply (f_equal unfill) in Heq. rewrite !Hun in Heq.
  by apply (inj pretty) in Heq.
Qed.

Definition object_id_infinite : Infinite string :=
  search_infinite object_id_of_nat.

(** An id that is not in [used]: the first one of the sequence. *)
Definition new_object_id (used : gset string) : string :=
  @fresh string (list string) (@infinite_fresh string object_id_infinite)
    (elements used).
Global Arguments new_object_id : simpl never.

(** ** Schemas *)

(** [IAdminContact], as stored: the schema declares [name], [title],
    [email] (required, trimmed), [position] (default 0), the optional [user]
    reference and the two timestamps.  [avatarUrl] is in the interface but
    not in the schema, so it is never stored.  The [_id] is the key of the
    collection. *)
Module IAdminContact.
Record t : Type := mk {
  name : string;
  title : string;
  email : string;
  position : Z;
  user : option string;
  createdAt : Z;
  updatedAt : Z
}.
End IAdminContact.

(** The user documents, as far as these handlers read them. *)
Module IUser.
Record t : Type := mk {
  id : string;
  userName : string;
  email : string;
  bio : string;
  preferences : string;
  avatarUrl : option string;
  user_level_id : Z
}.
End IUser.

Global Instance IAdminContact_eq_dec : EqDecision IAdminContact.t.
Proof. solve_decision. Defined.

Global Instance IUser_eq_dec : EqDecision IUser.t.
Proof. solve_decision. Defined.

(** ** The world *)

Record Db : Type := mkDb {
  admincontacts : gmap string IAdminContact.t;
  users : list IUser.t
}.

(** [faults]: one entry per coming database round trip, [true] when the
    driver rejects it (a lost connection, a time-out); past the end of the
    script nothing is rejected.  What is refused before the database is
    asked (an id or a reference that cannot be cast, a field the schema
    rejects) is decided by the casts and the validators below. *)
Record World : Type := mkWorld {
  db : Db;
  clock : Z;
  faults : list bool
}.

Definition set_contacts (m : gmap string IAdminContact.t) (w : World) : World :=
  mkWorld (mkDb m (users (db w))) (clock w) (faults w).

Definition set_users (us : list IUser.t) (w : World) : World :=
  mkWorld (mkDb (admincontacts (db w)) us) (clock w) (faults w).

(** ** The monad of the handlers *)

Inductive exn : Type :=
  | DriverError
  | CastError (path : string)
  | ValidationError (path : string).

Inductive result (A : Type) : Type :=
  | Ok (a : A)
  | Throw (e : exn).
Arguments Ok {A} a.
Arguments Throw {A} e.

Definition M (A : Type) : Type := World → result A * World.

Global Instance M_ret : MRet M := fun A a w => (Ok a, w).

Global Instance M_bind : MBind M := fun A B k m w =>
  match m w with
  | (Ok a, w') => k a w'
  | (Throw e, w') => (Throw e, w')
  end.

Definition throw {A} (e : exn) : M A := fun w => (Throw e, w).

Definition get_world : M World := fun w => (Ok w, w).

Definition modify (f : World → World) : M unit := fun w => (Ok tt, f w).

(** One round trip to the database: the next entry of the fault script is
    consumed, and the driver throws when it is [true]. *)
Definition round_trip : M unit :=
  fun w =>
    let w' := mkWorld (db w) (clock w) (tail (faults w)) in
    if default false (head (faults w))
    then (Throw DriverError, w')
    else (Ok tt, w').

(** ** Requests and responses *)

(** [CustomError(message, status)], handed to [next]. *)
Record CustomError : Type := mkCustomError {
  message : string;
  status : Z
}.

(** A contact as [getContacts] returns it: the stored document spread into a
    fresh object together with the [avatarUrl] property. *)
Record EnrichedContact : Type := mkEnriched {
  ec_id : string;
  ec_contact : IAdminContact.t;
  ec_avatarUrl : jsval
}.

Inductive Body : Type :=
  | ContactsBody (contacts : list EnrichedContact)
  | ContactBody (msg : string) (contact : string * IAdminContact.t)
  | SuccessBody (success : bool) (msg : string)
  | MessageBody (msg : string)
  | UserBody (u : IUser.t).

(** What a handler does with its request: [res.status(s).json(b)] or
    [next(err)]. *)
Inductive Response : Type :=
  | Json (st : Z) (body : Body)
  | Next (err : CustomError).

(** [try { ... } catch (error) { next(new CustomError(msg, 500)) }] *)
Definition try_catch (body : M Response) (handler : exn → Response)
    : World → Response * World :=
  fun w =>
    match body w with
    | (Ok r, w') => (r, w')
    | (Throw e, w') => (handler e, w')
    end.

(** The HTTP status a response ends with. *)
Definition status_of (r : Response) : Z :=
  match r with
  | Json st _ => st
  | Next err => status err
  end.

(** Request bodies.  A property that the client left out is [None]. *)
Record AddBody : Type := mkAddBody {
  add_name : option string;
  add_title : option string;
  add_email : option string
}.

(** The body of an update, as far as it sets paths of the schema: the
    handler passes [req.body] as it is, so [position] and [user] are written
    when the client sends them.  Update operators are not modelled. *)
Record UpdateBody : Type := mkUpdateBody {
  upd_name : option string;
  upd_title : option string;
  upd_email : option string;
  upd_position : option Z;
  upd_user : option string
}.

(** ** The persistence layer, for the schema of [adminContactModel.ts] *)

(** The [required] validator of a string path: present and not empty. *)
Definition checkRequired (o : option string) : bool :=
  match o with
  | Some s => negb (String.eqb s "")
  | None => false
  end.

(** The [trim: true] setter. *)
Definition apply_trim (o : option string) : option string := trim <$> o.

Definition require (path : string) (o : option string) : M unit :=
  if checkRequired o then mret tt else throw (ValidationError path).

(** The cast of an id at [path]. *)
Definition cast_id (path : string) (s : string) : M unit :=
  if castable s then mret tt else throw (CastError path).

Definition le_position (x y : string * IAdminContact.t) : Prop :=
  IAdminContact.position x.2 ≤ IAdminContact.position y.2.

Global Instance le_position_dec : RelDecision le_position.
Proof. intros x y. unfold le_position. apply _. Defined.

Module AdminContact.

(** A document built by [new AdminContact({name, title, email})] and not
    saved yet: the setters have run, the default of [position] is filled
    in, an [_id] that the collection does not use has been generated. *)
Record Draft : Type := mkDraft {
  d_id : string;
  d_name : option string;
  d_title : option string;
  d_email : option string;
  d_position : Z;
  d_user : option string
}.

Definition new (name title email : option string) : M Draft :=
  w ← get_world;
  mret (mkDraft (new_object_id (dom (admincontacts (db w))))
                (apply_trim name) (apply_trim title) (apply_trim email)
                0 None).

(** [doc.save()]: validation, then the insert, stamped by the clock. *)
Definition save (d : Draft) : M (string * IAdminContact.t) :=
  require "name" (d_name d);;
  require "title" (d_title d);;
  require "email" (d_email d);;
  round_trip;;
  w ← get_world;
  let doc := IAdminContact.mk (default "" (d_name d)) (default "" (d_title d))
               (default "" (d_email d)) (d_position d) (d_user d)
               (clock w) (clock w) in
  modify (set_contacts (<[d_id d := doc]> (admincontacts (db w))));;
  mret (d_id d, doc).

(** [AdminContact.find().sort({position: 1}).lean()] *)
Definition find_sort_position : M (list (string * IAdminContact.t)) :=
  round_trip;;
  w ← get_world;
  mret (merge_sort le_position (map_to_list (admincontacts (db w)))).

(** The update document of [findByIdAndUpdate]: the paths it sets. *)
Record Update : Type := mkUpdate {
  set_name : option string;
  set_title : option string;
  set_email : option string;
  set_position : option Z;
  set_user : option string
}.

Record Options : Type := mkOptions {
  opt_new : bool;
  opt_runValidators : bool
}.

Definition no_options : Options := mkOptions false false.

(** Casting an update runs the setters of the paths it sets, and casts the
    reference it sets. *)
Definition cast_update (u : Update) : Update :=
  mkUpdate (apply_trim (set_name u)) (apply_trim (set_title u))
           (apply_trim (set_email u)) (set_position u) (set_user u).

Definition cast_reference (u : Update) : M unit :=
  match set_user u with
  | None => mret tt
  | Some s => cast_id "user" s
  end.

(** Update validators run on the paths the update sets, and only there. *)
Definition validate_path (path : string) (o : option string) : M unit :=
  match o with
  | None => mret tt
  | Some _ => require path o
  end.

Definition validate_update (u : Update) : M unit :=
  validate_path "name" (set_name u);;
  validate_path "title" (set_title u);;
  validate_path "email" (set_email u).

(** The stored document after the update; [timestamps: true] refreshes
    [updatedAt]. *)
Definition apply_update (u : Update) (now : Z) (c : IAdminContact.t)
    : IAdminContact.t :=
  IAdminContact.mk
    (default (IAdminContact.name c) (set_name u))
    (default (IAdminContact.title c) (set_title u))
    (default (IAdminContact.email c) (set_email u))
    (default (IAdminContact.position c) (set_position u))
    (match set_user u with
     | Some s => Some s
     | None => IAdminContact.user c
     end)
    (IAdminContact.createdAt c)
    now.

(** [AdminContact.findByIdAndUpdate(id, update, options)]: the id and the
    update are cast and, with [runValidators], the update is validated,
    before the database is asked.  The answer is [null] when no document has
    this [_id]; otherwise the document after the update with [new: true],
    and the document before it without. *)
Definition findByIdAndUpdate (id : string) (u : Update) (o : Options)
    : M (option IAdminContact.t) :=
  cast_id "_id" id;;
  let u' := cast_update u in
  cast_reference u';;
  (if opt_runValidators o then validate_update u' else mret tt);;
  round_trip;;
  w ← get_world;
  match admincontacts (db w) !! id with
  | None => mret None
  | Some c =>
      let c' := apply_update u' (clock w) c in
      modify (set_contacts (<[id := c']> (admincontacts (db w))));;
      mret (Some (if opt_new o then c' else c))
  end.

(** [AdminContact.findByIdAndDelete(id)] *)
Definition findByIdAndDelete (id : string) : M (option IAdminContact.t) :=
  cast_id "_id" id;;
  round_trip;;
  w ← get_world;
  match admincontacts (db w) !! id with
  | None => mret None
  | Some c =>
      modify (set_contacts (delete id (admincontacts (db w))));;
      mret (Some c)
  end.

End AdminContact.

Module userModel.

(** [userModel.find({email: {$in: emails}}).select('email avatarUrl').lean()] *)
Definition find_email_in (emails : list string)
    : M (list (string * option string)) :=
  round_trip;;
  w ← get_world;
  mret ((λ u, (IUser.email u, IUser.avatarUrl u)) <$>
        filter (λ u, IUser.email u ∈ emails) (users (db w))).

(** [userModel.find({user_level_id: {$in: levels}}, "email")] *)
Definition find_level_in (levels : list Z) : M (list IUser.t) :=
  round_trip;;
  w ← get_world;
  mret (filter (λ u, IUser.user_level_id u ∈ levels) (users (db w))).

End userModel.

(** [new Map(entries)]: the entries are set in order, a later one replaces an
    earlier one with the same key. *)
Definition js_Map (entries : list (string * jsval)) : gmap string jsval :=
  foldl (λ m kv, <[kv.1 := kv.2]> m) ∅ entries.

(** [map.get(k)]: [undefined] for a key that is not there. *)
Definition Map_get (m : gmap string jsval) (k : string) : jsval :=
  default JUndefined (m !! k).

(** ** The admin contact controller *)

Definition adminLevels : list Z := [2; 3].

Definition unauthorized : Response :=
  Next (mkCustomError "Unauthorized, no user found" 401).

Definition forbidden : Response :=
  Next (mkCustomError "Forbidden, not an admin" 403).

Definition enrich (userMap : gmap string jsval) (contact : string * IAdminContact.t)
    : EnrichedContact :=
  mkEnriched contact.1 contact.2
    (js_or (Map_get userMap (IAdminContact.email contact.2)) JNull).

Definition getContacts : World → Response * World :=
  try_catch
    (contacts ← AdminContact.find_sort_position;
     let emails := (λ c, IAdminContact.email c.2) <$> contacts in
     users ← userModel.find_email_in emails;
     let userMap := js_Map ((λ u, (u.1, to_js u.2)) <$> users) in
     let enrichedContacts := enrich userMap <$> contacts in
     mret (Json 200 (ContactsBody enrichedContacts)))
    (λ _, Next (mkCustomError "Failed to fetch contacts" 500)).

Definition addContact (user : option IUser.t) (body : AddBody)
    : World → Response * World :=
  try_catch
    (match user with
     | None => mret unauthorized
     | Some u =>
         if negb (includes adminLevels (IUser.user_level_id u))
         then mret forbidden
         else
           let name := add_name body in
           let title := add_title body in
           let email := add_email body in
           if js_not name || js_not title || js_not email
           then mret (Next (mkCustomError "All fields are required" 400))
           else
             newContact ← AdminContact.new name title email;
             saved ← AdminContact.save newContact;
             mret (Json 201
                     (ContactBody "Admin contact added successfully" saved))
     end)
    (λ _, Next (mkCustomError "Failed to add contact" 500)).

Definition updateContact (user : option IUser.t) (id : string)
    (updates : UpdateBody) : World → Response * World :=
  try_catch
    (match user with
     | None => mret unauthorized
     | Some u =>
         if negb (includes adminLevels (IUser.user_level_id u))
         then mret forbidden
         else
           updatedContact ←
             AdminContact.findByIdAndUpdate id
               (AdminContact.mkUpdate (upd_name updates) (upd_title updates)
                  (upd_email updates) (upd_position updates)
                  (upd_user updates))
               (AdminContact.mkOptions true true);
           match updatedContact with
           | None => mret (Next (mkCustomError "Contact not found" 404))
           | Some c =>
               mret (Json 200 (ContactBody "Contact updated successfully" (id, c)))
           end
     end)
    (λ _, Next (mkCustomError "Failed to update contact" 500)).

Definition deleteContact (user : option IUser.t) (id : string)
    : World → Response * World :=
  try_catch
    (match user with
     | None => mret unauthorized
     | Some u =>
         if negb (includes adminLevels (IUser.user_level_id u))
         then mret forbidden
         else
           deletedContact ← AdminContact.findByIdAndDelete id;
           match deletedContact with
           | None => mret (Next (mkCustomError "Contact not found" 404))
           | Some _ =>
               mret (Json 200 (SuccessBody true "Contact deleted successfully"))
           end
     end)
    (λ _, Next (mkCustomError "Failed to delete contact" 500)).

(** The loop of [reorderContacts], from [index] on over the ids that are
    left: one awaited [findByIdAndUpdate(id, {position: index})] each. *)
Fixpoint reorder_loop (index : nat) (ids : list string) : M unit :=
  match ids with
  | [] => mret tt
  | id :: rest =>
      AdminContact.findByIdAndUpdate id
        (AdminContact.mkUpdate None None None (Some (Z.of_nat index)) None)
        AdminContact.no_options;;
      reorder_loop (S index) rest
  end.

(** [orderedIds] is [None] when the body has no array under that name. *)
Definition reorderContacts (user : option IUser.t)
    (orderedIds : option (list string)) : World → Response * World :=
  try_catch
    (match user with
     | None => mret unauthorized
     | Some u =>
         if negb (includes adminLevels (IUser.user_level_id u))
         then mret forbidden
         else
           match orderedIds with
           | None | Some [] =>
               mret (Next (mkCustomError "Invalid ordered IDs array" 400))
           | Some ids =>
               reorder_loop 0 ids;;
               mret (Json 200 (MessageBody "Contacts reordered successfully"))
           end
     end)
    (λ _, Next (mkCustomError "Failed to reorder contacts" 500)).

(** The four mutations of the contact list, as one request type. *)
Inductive AdminMutation : Type :=
  | AddContact (body : AddBody)
  | UpdateContact (id : string) (updates : UpdateBody)
  | DeleteContact (id : string)
  | ReorderContacts (orderedIds : option (list string)).

Definition run_mutation (op : AdminMutation) (user : option IUser.t)
    : World → Response * World :=
  match op with
  | AddContact body => addContact user body
  | UpdateContact id updates => updateContact user id updates
  | DeleteContact id => deleteContact user id
  | ReorderContacts orderedIds => reorderContacts user orderedIds
  end.

(** ** The admin e-mail lookup *)

Definition getAdminEmails : M (list string) :=
  admins ← userModel.find_level_in adminLevels;
  mret (IUser.email <$> admins).

(** ** The profile update *)

(** Modelled from the spec: the fields a profile update may carry
    ([userName], [email], [bio], [preferences]), each optional. *)
Record ProfileFields : Type := mkProfileFields {
  pf_userName : option string;
  pf_email : option string;
  pf_bio : option string;
  pf_preferences : option string
}.

(** Modelled from the spec: the partial update of a profile; a field that
    is not in the payload keeps its value. *)
Definition apply_profile (f : ProfileFields) (u : IUser.t) : IUser.t :=
  IUser.mk (IUser.id u)
    (default (IUser.userName u) (pf_userName f))
    (default (IUser.email u) (pf_email f))
    (default (IUser.bio u) (pf_bio f))
    (default (IUser.preferences u) (pf_preferences f))
    (IUser.avatarUrl u)
    (IUser.user_level_id u).

(** Modelled from the spec: the update of the user with id [targetId],
    [None] when there is no such user. *)
Fixpoint update_user (targetId : string) (f : ProfileFields)
    (us : list IUser.t) : option (IUser.t * list IUser.t) :=
  match us with
  | [] => None
  | u :: rest =>
      if String.eqb (IUser.id u) targetId
      then Some (apply_profile f u, apply_profile f u :: rest)
      else
        match update_user targetId f rest with
        | Some (u', rest') => Some (u', u :: rest')
        | None => None
        end
  end.

(** Modelled from the spec: the profile controller, of which the sources
    have the route and its documented responses only.  [updateProfile] fails
    with 403 when the requesting user does not own [targetId], with 404 when
    the target user does not exist, and otherwise applies the partial update
    ([userName], [email], [bio], [preferences]) and returns the updated
    user. *)
Definition updateProfile (requestingUser : IUser.t) (targetId : string)
    (profileFields : ProfileFields) : World → Response * World :=
  fun w =>
    if negb (String.eqb (IUser.id requestingUser) targetId)
    then (Next (mkCustomError "Cannot update another user's profile" 403), w)
    else
      match update_user targetId profileFields (users (db w)) with
      | None => (Next (mkCustomError "User not found" 404), w)
      | Some (u', us') => (Json 200 (UserBody u'), set_users us' w)
      end.

(** ** Sample worlds *)

Definition contact0 (name email : string) (position : Z) : IAdminContact.t :=
  IAdminContact.mk name "Coordinator" email position None 0 0.

Definition user0 (id email : string) (avatar : option string) (level : Z)
    : IUser.t :=
  IUser.mk id id email "" "" avatar level.

(** Three ids that can be cast. *)
Definition idA : string := "aaaaaaaaaaaaaaaaaaaaaaaa".

Definition idB : string := "bbbbbbbbbbbbbbbbbbbbbbbb".

Definition idC : string := "cccccccccccccccccccccccc".

(** An id that can be cast and that no sample contact has. *)
Definition idD : string := "dddddddddddddddddddddddd".

Definition sample_world : World :=
  mkWorld
    (mkDb (<[idA := contact0 "Ann" "ann@x" 5]>
           (<[idB := contact0 "Bob" "bob@x" 1]>
            (<[idC := contact0 "Cid" "cid@x" 3]> ∅)))
          [user0 "u1" "ann@x" (Some "ann.png") 1;
           user0 "u2" "bob@x" None 2;
           user0 "u3" "root@x" (Some "") 3])
    100 [].


Definition admin_user : IUser.t := user0 "u2" "bob@x" None 2.

Definition plain_user : IUser.t := user0 "u1" "ann@x" (Some "ann.png") 1.

(** ** Vocabulary of the statements *)

(** The role levels the controller lets through. *)
Definition is_admin (u : IUser.t) : Prop :=
  IUser.user_level_id u = 2 ∨ IUser.user_level_id u = 3.

(** No database round trip of the coming ones is rejected. *)
Definition healthy (w : World) : Prop := Forall (λ b, b = false) (faults w).

(** The world after one accepted round trip. *)
Definition advance (w : World) : World :=
  mkWorld (db w) (clock w) (tail (faults w)).

Ltac unfold_handler :=
  unfold try_catch, mbind, M_bind, mret, M_ret, throw, get_world, modify.

Ltac in_list := solve [repeat first [by left | right]].

(** A body of [addContact] in which a required field is missing or empty. *)
Definition is_missing (o : option string) : Prop := o = None ∨ o = Some "".

Definition incomplete (body : AddBody) : Prop :=
  is_missing (add_name body) ∨ is_missing (add_title body) ∨
  is_missing (add_email body).

Global Instance is_admin_dec (u : IUser.t) : Decision (is_admin u).
Proof. unfold is_admin. apply _. Defined.

(** Ascending position, on the contacts as returned. *)
Definition by_position (x y : EnrichedContact) : Prop :=
  IAdminContact.position (ec_contact x) ≤ IAdminContact.position (ec_contact y).

(** The avatar the join by e-mail comes to, read off the user collection:
    that of the last user with this e-mail address, when it is a string that
    is not empty, and [null] in every other case. *)
Definition avatar_by_email (us : list IUser.t) (e : string) : jsval :=
  match last (filter (λ u, IUser.email u = e) us) with
  | Some u =>
      match IUser.avatarUrl u with
      | Some s => if decide (s = "") then JNull else JString s
      | None => JNull
      end
  | None => JNull
  end.

(** The [avatarUrl] clause of C2 as the claim words it: the avatar string of
    the user with the contact's e-mail address, or [null] when there is no
    such user. *)
Definition avatar_as_claimed (us : list IUser.t) (ec : EnrichedContact) : Prop :=
  (∃ u s, u ∈ us ∧ IUser.email u = IAdminContact.email (ec_contact ec) ∧
          IUser.avatarUrl u = Some s ∧ ec_avatarUrl ec = JString s) ∨
  ((∀ u, u ∈ us → IUser.email u ≠ IAdminContact.email (ec_contact ec)) ∧
   ec_avatarUrl ec = JNull).

(** Two contacts whose users exist: one with an empty avatar string, one
    without an avatar. *)
Definition avatar_world : World :=
  mkWorld
    (mkDb (<[idA := contact0 "Ann" "ann@x" 0]>
           (<[idB := contact0 "Bob" "bob@x" 1]> ∅))
          [user0 "u1" "ann@x" (Some "") 1; user0 "u2" "bob@x" None 2])
    100 [].

(** What one step of the loop leaves in the collection. *)
Definition set_position (now : Z) (id : string) (index : nat)
    (m : gmap string IAdminContact.t) : gmap string IAdminContact.t :=
  match m !! id with
  | None => m
  | Some c =>
      <[id := AdminContact.apply_update
                (AdminContact.mkUpdate None None None (Some (Z.of_nat index)) None)
                now c]> m
  end.

(** What the loop leaves when every step is accepted. *)
Fixpoint assign_positions (now : Z) (index : nat) (ids : list string)
    (m : gmap string IAdminContact.t) : gmap string IAdminContact.t :=
  match ids with
  | [] => m
  | id :: rest => assign_positions now (S index) rest (set_position now id index m)
  end.

(** The same contact, somewhere else in the order. *)
Definition moved_to (c c' : IAdminContact.t) (p : Z) : Prop :=
  IAdminContact.position c' = p ∧
  IAdminContact.name c' = IAdminContact.name c ∧
  IAdminContact.title c' = IAdminContact.title c ∧
  IAdminContact.email c' = IAdminContact.email c.

(** A field of an update that the validators of the schema accept: not
    there, or not blank. *)
Definition valid_field (o : option string) : Prop :=
  ∀ s, o = Some s → trim s ≠ "".

(** A reference of an update that can be cast: not there, or an id. *)
Definition valid_reference (o : option string) : Prop :=
  ∀ s, o = Some s → castable s = true.

Definition valid_update (updates : UpdateBody) : Prop :=
  valid_field (upd_name updates) ∧ valid_field (upd_title updates) ∧
  valid_field (upd_email updates) ∧ valid_reference (upd_user updates).


(** ** Vocabulary of the further properties *)

(** The list [getContacts] answers with, as a function of the database. *)
Definition listing (d : Db) : list EnrichedContact :=
  let contacts := merge_sort le_position (map_to_list (admincontacts d)) in
  let emails := (λ c : string * IAdminContact.t, IAdminContact.email c.2) <$> contacts in
  let found := (λ u, (IUser.email u, IUser.avatarUrl u)) <$>
                 filter (λ u, IUser.email u ∈ emails) (users d) in
  enrich (js_Map ((λ u : string * option string, (u.1, to_js u.2)) <$> found))
    <$> contacts.

(** What the schema asks of a stored string: not empty, nothing to trim. *)
Definition clean (s : string) : Prop := s ≠ "" ∧ trim s = s.

Definition contact_clean (c : IAdminContact.t) : Prop :=
  clean (IAdminContact.name c) ∧ clean (IAdminContact.title c) ∧
  clean (IAdminContact.email c).


(** A field a client sent, not empty, that is blank once trimmed. *)
Definition blank_field (o : option string) : Prop :=
  ∃ s, o = Some s ∧ trim s = "".

(** What [reorderContacts] and [updateContact] leave alone in a contact. *)
Definition same_origin (c c' : IAdminContact.t) : Prop :=
  IAdminContact.user c' = IAdminContact.user c ∧
  IAdminContact.createdAt c' = IAdminContact.createdAt c.

Global Instance IAdminContact_inhabited : Inhabited IAdminContact.t :=
  populate (IAdminContact.mk "" "" "" 0 None 0 0).

(** The sample world with a fault script. *)
Definition faulty_world (fs : list bool) : World :=
  mkWorld (db sample_world) 100 fs.

(** [c'] differs from [c] in position and [updatedAt] at most. *)
Definition repositioned (c c' : IAdminContact.t) : Prop :=
  IAdminContact.name c' = IAdminContact.name c ∧
  IAdminContact.title c' = IAdminContact.title c ∧
  IAdminContact.email c' = IAdminContact.email c ∧
  same_origin c c'.

(** [m'] has the ids of [m], each with a contact related by [R] to the one
    it had. *)
Definition carried (R : relation IAdminContact.t)
    (m m' : gmap string IAdminContact.t) : Prop :=
  ∀ id, match m !! id with
        | None => m' !! id = None
        | Some c => ∃ c', m' !! id = Some c' ∧ R c c'
        end.

(** A reference an update sets that cannot be cast. *)
Definition bad_reference (o : option string) : Prop :=
  ∃ s, o = Some s ∧ castable s = false.

(** An update that is stopped before the database is asked: a field that
    is blank once trimmed, or a reference that cannot be cast. *)
Definition refused_update (updates : UpdateBody) : Prop :=
  blank_field (upd_name updates) ∨ blank_field (upd_title updates) ∨
  blank_field (upd_email updates) ∨ bad_reference (upd_user updates).

(** ** Shared facts *)

Lemma includes_adminLevels (x : Z) :
  includes adminLevels x = true ↔ x = 2 ∨ x = 3.
Proof.
  unfold includes, adminLevels. simpl.
  rewrite !orb_true_iff, !Z.eqb_eq. intuition discriminate.
Qed.

Lemma is_admin_includes (u : IUser.t) :
  is_admin u → includes adminLevels (IUser.user_level_id u) = true.
Proof. intros H. by apply includes_adminLevels. Qed.

Lemma not_admin_includes (u : IUser.t) :
  IUser.user_level_id u ≠ 2 → IUser.user_level_id u ≠ 3 →
  includes adminLevels (IUser.user_level_id u) = false.
Proof.
  intros H2 H3. apply not_true_is_false. rewrite includes_adminLevels. tauto.
Qed.

Lemma round_trip_healthy (w : World) :
  healthy w → round_trip w = (Ok tt, advance w).
Proof.
  unfold healthy, round_trip, advance. destruct (faults w) as [|b fs]; [done|].
  intros H. apply Forall_cons in H as [-> _]. done.
Qed.

Lemma healthy_advance (w : World) : healthy w → healthy (advance w).
Proof.
  unfold healthy, advance. simpl. destruct (faults w); [done|].
  by intros [_ ?]%Forall_cons.
Qed.

Lemma round_trip_db (w : World) : db (round_trip w).2 = db w.
Proof. unfold round_trip. by destruct (default false (head (faults w))). Qed.

(** The gate of the four mutations. *)
Lemma run_mutation_unauthorized (op : AdminMutation) (w : World) :
  run_mutation op None w = (unauthorized, w).
Proof. by destruct op. Qed.

Lemma run_mutation_forbidden (op : AdminMutation) (u : IUser.t) (w : World) :
  includes adminLevels (IUser.user_level_id u) = false →
  run_mutation op (Some u) w = (forbidden, w).
Proof.
  intros H. destruct op; simpl;
    unfold addContact, updateContact, deleteContact, reorderContacts;
    rewrite H; done.
Qed.

(** ** The authorization gate *)

(** C1.  Every mutation of the contact list (add, update, delete, reorder),
    whatever its payload, ends with 401 when there is no authenticated user
    and with 403 when the user's role level is neither 2 nor 3; in both
    cases the world, and so the contact collection, is as before. *)
Theorem admin_mutation_gate (op : AdminMutation) (w : World) :
  run_mutation op None w =
    (Next (mkCustomError "Unauthorized, no user found" 401), w) ∧
  ∀ u : IUser.t,
    IUser.user_level_id u ≠ 2 → IUser.user_level_id u ≠ 3 →
    run_mutation op (Some u) w =
      (Next (mkCustomError "Forbidden, not an admin" 403), w).
Proof.
  split.
  - apply run_mutation_unauthorized.
  - intros u H2 H3. apply run_mutation_forbidden. by apply not_admin_includes.
Qed.

Lemma admin_mutation_gate_witness :
  run_mutation (DeleteContact idA) (Some plain_user) sample_world =
    (Next (mkCustomError "Forbidden, not an admin" 403), sample_world).
Proof.
  apply (proj2 (admin_mutation_gate (DeleteContact idA) sample_world) plain_user);
    simpl; lia.
Defined.

Lemma js_not_missing (o : option string) : js_not o = true ↔ is_missing o.
Proof.
  unfold js_not, is_missing. destruct o as [s|]; simpl.
  - rewrite negb_involutive. destruct (String.eqb_spec s "") as [->|Hs].
    + split; [by right | done].
    + split; [done | intros [H|H]; [done | by injection H]].
  - split; [by left | done].
Qed.

Lemma incomplete_check (body : AddBody) :
  js_not (add_name body) || js_not (add_title body) || js_not (add_email body)
    = true ↔ incomplete body.
Proof.
  unfold incomplete. rewrite !orb_true_iff, !js_not_missing. tauto.
Qed.

Lemma addContact_incomplete (u : IUser.t) (body : AddBody) (w : World) :
  is_admin u → incomplete body →
  addContact (Some u) body w =
    (Next (mkCustomError "All fields are required" 400), w).
Proof.
  intros Hu Hb. unfold addContact.
  rewrite (is_admin_includes u Hu). simpl.
  apply incomplete_check in Hb. rewrite Hb. done.
Qed.

Lemma reorderContacts_invalid (u : IUser.t) (o : option (list string)) (w : World) :
  is_admin u → o = None ∨ o = Some [] →
  reorderContacts (Some u) o w =
    (Next (mkCustomError "Invalid ordered IDs array" 400), w).
Proof.
  intros Hu Ho. unfold reorderContacts.
  rewrite (is_admin_includes u Hu). by destruct Ho as [-> | ->].
Qed.

(** C10.  Authorization comes before the inspection of the body: with a body
    that an admin is answered 400 for ([addContact] with a missing field,
    [reorderContacts] without a non-empty list), a request without a user is
    answered 401 and one of a non-admin 403. *)
Theorem authorization_before_validation (w : World) :
  (∀ body : AddBody, incomplete body →
     addContact None body w =
       (Next (mkCustomError "Unauthorized, no user found" 401), w) ∧
     (∀ u, IUser.user_level_id u ≠ 2 → IUser.user_level_id u ≠ 3 →
        addContact (Some u) body w =
          (Next (mkCustomError "Forbidden, not an admin" 403), w)) ∧
     (∀ u, is_admin u → status_of (addContact (Some u) body w).1 = 400)) ∧
  (∀ orderedIds : option (list string),
     orderedIds = None ∨ orderedIds = Some [] →
     reorderContacts None orderedIds w =
       (Next (mkCustomError "Unauthorized, no user found" 401), w) ∧
     (∀ u, IUser.user_level_id u ≠ 2 → IUser.user_level_id u ≠ 3 →
        reorderContacts (Some u) orderedIds w =
          (Next (mkCustomError "Forbidden, not an admin" 403), w)) ∧
     (∀ u, is_admin u →
        status_of (reorderContacts (Some u) orderedIds w).1 = 400)).
Proof.
  split.
  - intros body Hb. split; [|split].
    + apply (run_mutation_unauthorized (AddContact body)).
    + intros u H2 H3. apply (run_mutation_forbidden (AddContact body)).
      by apply not_admin_includes.
    + intros u Hu. by rewrite addContact_incomplete.
  - intros o Ho. split; [|split].
    + apply (run_mutation_unauthorized (ReorderContacts o)).
    + intros u H2 H3. apply (run_mutation_forbidden (ReorderContacts o)).
      by apply not_admin_includes.
    + intros u Hu. by rewrite reorderContacts_invalid.
Qed.

Lemma authorization_before_validation_witness :
  addContact (Some plain_user) (mkAddBody None (Some "Advisor") None)
    sample_world =
    (Next (mkCustomError "Forbidden, not an admin" 403), sample_world) ∧
  status_of
    (addContact (Some admin_user) (mkAddBody None (Some "Advisor") None)
       sample_world).1 = 400 ∧
  reorderContacts (Some plain_user) (Some []) sample_world =
    (Next (mkCustomError "Forbidden, not an admin" 403), sample_world).
Proof.
  assert (Hb : incomplete (mkAddBody None (Some "Advisor") None))
    by (left; left; reflexivity).
  destruct (authorization_before_validation sample_world) as [Hadd Hre].
  destruct (Hadd _ Hb) as (_ & Hforbid & Hadmin).
  destruct (Hre (Some []) (or_intror eq_refl)) as (_ & Hforbid' & _).
  split; [|split].
  - apply Hforbid; simpl; lia.
  - apply Hadmin. left. reflexivity.
  - apply Hforbid'; simpl; lia.
Defined.

(** ** The profile update *)

(** C7.  [updateProfile] never succeeds for a requesting user who is not
    the target: whatever the payload, the answer is 403 and the world, the
    target's profile included, is as before. *)
Theorem updateProfile_requires_owner (requestingUser : IUser.t)
    (targetId : string) (profileFields : ProfileFields) (w : World) :
  IUser.id requestingUser ≠ targetId →
  updateProfile requestingUser targetId profileFields w =
    (Next (mkCustomError "Cannot update another user's profile" 403), w).
Proof.
  intros Hne. unfold updateProfile.
  destruct (String.eqb_spec (IUser.id requestingUser) targetId) as [Heq|_];
    [by destruct Hne | done].
Qed.

Lemma updateProfile_requires_owner_witness :
  updateProfile plain_user "u2"
    (mkProfileFields (Some "root") None None None) sample_world =
    (Next (mkCustomError "Cannot update another user's profile" 403),
     sample_world).
Proof.
  apply (updateProfile_requires_owner plain_user "u2"
           (mkProfileFields (Some "root") None None None) sample_world).
  simpl. discriminate.
Defined.

(** ** The admin e-mail lookup *)

Lemma elem_of_adminLevels (x : Z) : x ∈ adminLevels ↔ x = 2 ∨ x = 3.
Proof. unfold adminLevels. rewrite !elem_of_cons, elem_of_nil. tauto. Qed.

Lemma filter_admin_levels (us : list IUser.t) :
  filter (λ u, IUser.user_level_id u ∈ adminLevels) us = filter is_admin us.
Proof.
  apply list_filter_iff. intros u. apply elem_of_adminLevels.
Qed.

(** C8.  [getAdminEmails] writes nothing and, when the query is answered,
    returns the e-mail addresses of exactly the users whose role level is 2
    or 3, in the order of the collection. *)
Theorem getAdminEmails_exact (w : World) :
  db (getAdminEmails w).2 = db w ∧
  (healthy w →
   ∃ emails : list string,
     (getAdminEmails w).1 = Ok emails ∧
     emails = IUser.email <$> filter is_admin (users (db w)) ∧
     ∀ e : string,
       e ∈ emails ↔
       ∃ u, u ∈ users (db w) ∧
            (IUser.user_level_id u = 2 ∨ IUser.user_level_id u = 3) ∧
            IUser.email u = e).
Proof.
  unfold getAdminEmails, userModel.find_level_in. unfold_handler. split.
  - pose proof (round_trip_db w) as Hdb.
    destruct (round_trip w) as [[[]|e] w']; simpl in *; done.
  - intros Hw. rewrite (round_trip_healthy w Hw). simpl.
    eexists. split; [reflexivity|]. rewrite filter_admin_levels.
    split; [reflexivity|]. intros e. rewrite list_elem_of_fmap. split.
    + intros (u & -> & Hu). apply list_elem_of_filter in Hu as [Hadm Hin].
      exists u. done.
    + intros (u & Hin & Hadm & <-). exists u. split; [done|].
      apply list_elem_of_filter. done.
Qed.

Lemma getAdminEmails_exact_witness :
  ∃ emails : list string,
    (getAdminEmails sample_world).1 = Ok emails ∧
    emails = ["bob@x"; "root@x"].
Proof.
  destruct (proj2 (getAdminEmails_exact sample_world)) as (emails & Hr & He & _).
  - unfold healthy. simpl. constructor.
  - exists emails. split; [exact Hr|]. rewrite He. vm_compute. reflexivity.
Defined.

(** ** The contact list *)

Global Instance le_position_total : Total le_position.
Proof. intros x y. unfold le_position. lia. Qed.

Global Instance le_position_trans : Transitive le_position.
Proof. intros x y z. unfold le_position. lia. Qed.

Lemma js_Map_lookup (entries : list (string * jsval)) (k : string) :
  js_Map entries !! k = snd <$> last (filter (λ kv, kv.1 = k) entries).
Proof.
  induction entries as [|x entries IH] using rev_ind.
  - unfold js_Map. simpl. by rewrite lookup_empty.
  - unfold js_Map in *. rewrite foldl_snoc, filter_app, lookup_insert.
    destruct (decide (x.1 = k)) as [Hk|Hk].
    + rewrite (filter_cons_True _ x []) by done.
      rewrite filter_nil, last_snoc. done.
    + rewrite (filter_cons_False _ x []) by done.
      rewrite filter_nil, app_nil_r. apply IH.
Qed.

Lemma filter_key_selected (us : list IUser.t) (emails : list string) (k : string) :
  k ∈ emails →
  filter (λ kv : string * jsval, kv.1 = k)
    ((λ u, (u.1, to_js u.2)) <$>
       ((λ u, (IUser.email u, IUser.avatarUrl u)) <$>
          filter (λ u, IUser.email u ∈ emails) us)) =
  (λ u, (IUser.email u, to_js (IUser.avatarUrl u))) <$>
    filter (λ u, IUser.email u = k) us.
Proof.
  intros Hk. induction us as [|u us IH]; [done|].
  destruct (decide (IUser.email u = k)) as [Hu|Hu].
  - rewrite (filter_cons_True (λ u, IUser.email u = k)) by done.
    rewrite (filter_cons_True (λ u, IUser.email u ∈ emails)) by (by rewrite Hu).
    csimpl. rewrite filter_cons_True by done. by rewrite IH.
  - rewrite (filter_cons_False (λ u, IUser.email u = k)) by done.
    destruct (decide (IUser.email u ∈ emails)) as [Hin|Hin].
    + rewrite (filter_cons_True (λ u, IUser.email u ∈ emails)) by done.
      csimpl. rewrite filter_cons_False by done. apply IH.
    + rewrite (filter_cons_False (λ u, IUser.email u ∈ emails)) by done.
      apply IH.
Qed.

Lemma enrich_avatar (us : list IUser.t) (emails : list string)
    (contact : string * IAdminContact.t) :
  IAdminContact.email contact.2 ∈ emails →
  ec_avatarUrl
    (enrich
       (js_Map ((λ u, (u.1, to_js u.2)) <$>
                  ((λ u, (IUser.email u, IUser.avatarUrl u)) <$>
                     filter (λ u, IUser.email u ∈ emails) us)))
       contact) =
  avatar_by_email us (IAdminContact.email contact.2).
Proof.
  intros Hin. unfold enrich, avatar_by_email, Map_get. simpl.
  rewrite js_Map_lookup, (filter_key_selected us emails _ Hin), fmap_last.
  destruct (last _) as [u|]; simpl; [|done].
  destruct (IUser.avatarUrl u) as [s|]; simpl; [|done].
  unfold js_or. simpl. destruct (String.eqb_spec s ""), (decide (s = "")); done.
Qed.

Lemma enrich_forget (userMap : gmap string jsval)
    (l : list (string * IAdminContact.t)) :
  (λ ec, (ec_id ec, ec_contact ec)) <$> (enrich userMap <$> l) = l.
Proof.
  induction l as [|[i c] l IH]; [done|]. csimpl. by rewrite IH.
Qed.

Lemma avatar_by_email_defined (us : list IUser.t) (e : string) :
  avatar_by_email us e ≠ JUndefined.
Proof.
  unfold avatar_by_email. destruct (last _) as [u|]; [|done].
  destruct (IUser.avatarUrl u) as [s|]; [|done]. by destruct (decide (s = "")).
Qed.

Lemma getContacts_db (w : World) : db (getContacts w).2 = db w.
Proof.
  unfold getContacts, AdminContact.find_sort_position, userModel.find_email_in.
  unfold_handler.
  pose proof (round_trip_db w) as H1.
  destruct (round_trip w) as [[[]|e] w1]; simpl in *; [|done].
  pose proof (round_trip_db w1) as H2.
  destruct (round_trip w1) as [[[]|e] w2]; simpl in *; congruence.
Qed.

(** C2, as amended.  [getContacts] writes nothing.  When the two queries are
    answered it responds 200 with all stored contacts, sorted by ascending
    position, each with an [avatarUrl] that is never [undefined]: the avatar
    of the last user with the contact's e-mail address when that is a string
    that is not empty, and [null] when there is no such user or when that
    user's avatar is missing or empty. *)
Theorem getContacts_sorted_enriched (w : World) :
  db (getContacts w).2 = db w ∧
  (healthy w →
   ∃ l : list EnrichedContact,
     (getContacts w).1 = Json 200 (ContactsBody l) ∧
     StronglySorted by_position l ∧
     (λ ec, (ec_id ec, ec_contact ec)) <$> l
       ≡ₚ map_to_list (admincontacts (db w)) ∧
     ∀ ec, ec ∈ l →
       ec_avatarUrl ec ≠ JUndefined ∧
       ec_avatarUrl ec =
         avatar_by_email (users (db w)) (IAdminContact.email (ec_contact ec)) ∧
       ((∀ u, u ∈ users (db w) →
            IUser.email u ≠ IAdminContact.email (ec_contact ec)) →
        ec_avatarUrl ec = JNull) ∧
       (∀ s, ec_avatarUrl ec = JString s →
          s ≠ "" ∧
          ∃ u, u ∈ users (db w) ∧
               IUser.email u = IAdminContact.email (ec_contact ec) ∧
               IUser.avatarUrl u = Some s)).
Proof.
  split; [apply getContacts_db|]. intros Hw.
  unfold getContacts, AdminContact.find_sort_position, userModel.find_email_in.
  unfold_handler.
  rewrite (round_trip_healthy w Hw). simpl.
  rewrite (round_trip_healthy (advance w) (healthy_advance w Hw)). simpl.
  set (sorted := merge_sort le_position (map_to_list (admincontacts (db w)))).
  set (emails := (λ c : string * IAdminContact.t, IAdminContact.email c.2) <$> sorted).
  eexists. split; [reflexivity|]. split; [|split].
  - apply (StronglySorted_fmap _ le_position); [done|].
    apply StronglySorted_merge_sort; apply _.
  - rewrite enrich_forget. apply merge_sort_Permutation.
  - intros ec [c [-> Hc]]%list_elem_of_fmap.
    assert (Hin : IAdminContact.email c.2 ∈ emails).
    { apply list_elem_of_fmap. by exists c. }
    rewrite (enrich_avatar (users (db w)) emails c Hin).
    split; [apply avatar_by_email_defined|]. split; [done|].
    simpl. unfold avatar_by_email. split.
    + intros Hno. destruct (last _) as [u|] eqn:Hl; [|done].
      apply last_Some_elem_of, list_elem_of_filter in Hl as [He Hu].
      by destruct (Hno u Hu).
    + intros s Hs. destruct (last _) as [u|] eqn:Hl; [|done].
      apply last_Some_elem_of, list_elem_of_filter in Hl as [He Hu].
      destruct (IUser.avatarUrl u) as [s'|] eqn:Ha; [|done].
      destruct (decide (s' = "")); [done|].
      injection Hs as <-. split; [done|]. exists u. done.
Qed.

Lemma getContacts_sorted_enriched_witness :
  ∃ l : list EnrichedContact,
    (getContacts sample_world).1 = Json 200 (ContactsBody l) ∧
    StronglySorted by_position l ∧
    ec_id <$> l = [idB; idC; idA].
Proof.
  destruct (proj2 (getContacts_sorted_enriched sample_world))
    as (l & Hr & Hs & _).
  - unfold healthy. simpl. constructor.
  - exists l. split; [exact Hr|]. split; [exact Hs|].
    vm_compute in Hr. injection Hr as <-. reflexivity.
Defined.

(** C2, the counterexample: both users exist, and both contacts come back
    with [avatarUrl: null]. *)
Lemma getContacts_avatar_counterexample :
  ∃ ecA ecB : EnrichedContact,
    (getContacts avatar_world).1 = Json 200 (ContactsBody [ecA; ecB]) ∧
    ec_avatarUrl ecA = JNull ∧ ec_avatarUrl ecB = JNull ∧
    ¬ avatar_as_claimed (users (db avatar_world)) ecA ∧
    ¬ avatar_as_claimed (users (db avatar_world)) ecB.
Proof.
  eexists _, _. split; [vm_compute; reflexivity|].
  split; [reflexivity|]. split; [reflexivity|]. split.
  - intros [(u & s & _ & _ & _ & Hs) | [Hno _]]; [discriminate Hs|].
    apply (Hno (user0 "u1" "ann@x" (Some "") 1)); [|reflexivity].
    simpl. left.
  - intros [(u & s & _ & _ & _ & Hs) | [Hno _]]; [discriminate Hs|].
    apply (Hno (user0 "u2" "bob@x" None 2)); [|reflexivity].
    simpl. right. left.
Qed.

(** ** Reordering *)

Lemma cast_id_ok (path id : string) (w : World) :
  castable id = true → cast_id path id w = (Ok tt, w).
Proof. intros H. unfold cast_id. by rewrite H. Qed.

Lemma cast_id_fails (path id : string) (w : World) :
  castable id = false → cast_id path id w = (Throw (CastError path), w).
Proof. intros H. unfold cast_id. by rewrite H. Qed.

Lemma reorder_step (id : string) (index : nat)
    (m : gmap string IAdminContact.t) (us : list IUser.t) (now : Z)
    (b : bool) (fs : list bool) :
  castable id = true →
  AdminContact.findByIdAndUpdate id
    (AdminContact.mkUpdate None None None (Some (Z.of_nat index)) None)
    AdminContact.no_options (mkWorld (mkDb m us) now (b :: fs)) =
  if b then (Throw DriverError, mkWorld (mkDb m us) now fs)
  else (Ok (m !! id), mkWorld (mkDb (set_position now id index m) us) now fs).
Proof.
  intros Hid.
  unfold AdminContact.findByIdAndUpdate, set_position, round_trip.
  unfold_handler. rewrite (cast_id_ok "_id" id _ Hid). simpl.
  destruct b; simpl; [done|]. destruct (m !! id); done.
Qed.

Lemma reorder_step_idle (id : string) (index : nat)
    (m : gmap string IAdminContact.t) (us : list IUser.t) (now : Z) :
  castable id = true →
  AdminContact.findByIdAndUpdate id
    (AdminContact.mkUpdate None None None (Some (Z.of_nat index)) None)
    AdminContact.no_options (mkWorld (mkDb m us) now []) =
  (Ok (m !! id), mkWorld (mkDb (set_position now id index m) us) now []).
Proof.
  intros Hid.
  unfold AdminContact.findByIdAndUpdate, set_position, round_trip.
  unfold_handler. rewrite (cast_id_ok "_id" id _ Hid). simpl.
  destruct (m !! id); done.
Qed.

(** An id that cannot be cast stops the step before the database is
    asked. *)
Lemma reorder_step_uncastable (id : string) (index : nat) (w : World) :
  castable id = false →
  AdminContact.findByIdAndUpdate id
    (AdminContact.mkUpdate None None None (Some (Z.of_nat index)) None)
    AdminContact.no_options w = (Throw (CastError "_id"), w).
Proof.
  intros Hid. unfold AdminContact.findByIdAndUpdate. unfold_handler.
  by rewrite (cast_id_fails "_id" id _ Hid).
Qed.

(** The loop with every id cast and every round trip accepted. *)
Lemma reorder_loop_healthy (ids : list string) :
  ∀ (index : nat) (m : gmap string IAdminContact.t) (us : list IUser.t)
    (now : Z) (fs : list bool),
    Forall (λ id, castable id = true) ids →
    Forall (λ b, b = false) fs →
    reorder_loop index ids (mkWorld (mkDb m us) now fs) =
      (Ok tt, mkWorld (mkDb (assign_positions now index ids m) us) now
                (drop (length ids) fs)).
Proof.
  induction ids as [|id ids IH]; intros index m us now fs Hids Hfs; [done|].
  apply Forall_cons in Hids as [Hid Hids].
  cbn [reorder_loop]. unfold mbind, M_bind.
  destruct fs as [|b fs].
  - rewrite reorder_step_idle, IH by done. by rewrite !drop_nil.
  - apply Forall_cons in Hfs as [-> Hfs].
    rewrite reorder_step, IH by done. done.
Qed.


Lemma set_position_other (now : Z) (id id' : string) (index : nat)
    (m : gmap string IAdminContact.t) :
  id ≠ id' → set_position now id index m !! id' = m !! id'.
Proof.
  intros Hne. unfold set_position. destruct (m !! id); [|done].
  by rewrite lookup_insert_ne.
Qed.


Lemma assign_positions_other (now : Z) (ids : list string) (id : string) :
  ∀ (index : nat) (m : gmap string IAdminContact.t),
    id ∉ ids → assign_positions now index ids m !! id = m !! id.
Proof.
  induction ids as [|id0 ids IH]; intros index m Hid; [done|].
  apply not_elem_of_cons in Hid as [Hne Hid]. simpl.
  rewrite IH by done. by apply set_position_other.
Qed.


Lemma set_position_lookup (now : Z) (id id' : string) (index : nat)
    (m : gmap string IAdminContact.t) (c : IAdminContact.t) :
  m !! id' = Some c →
  ∃ c', set_position now id index m !! id' = Some c' ∧
        IAdminContact.name c' = IAdminContact.name c ∧
        IAdminContact.title c' = IAdminContact.title c ∧
        IAdminContact.email c' = IAdminContact.email c ∧
        (id = id' → IAdminContact.position c' = Z.of_nat index).
Proof.
  intros Hc. destruct (decide (id = id')) as [->|Hne].
  - unfold set_position. rewrite Hc, lookup_insert_eq. eexists. by split.
  - rewrite set_position_other by done. eexists. split; [done|]. by repeat split.
Qed.

(** The last assignment to an id is the one that stays. *)
Lemma assign_positions_last (now : Z) (ids : list string) (id : string) :
  ∀ (index i : nat) (m : gmap string IAdminContact.t) (c : IAdminContact.t),
    ids !! i = Some id → id ∉ drop (S i) ids → m !! id = Some c →
    ∃ c', assign_positions now index ids m !! id = Some c' ∧
          moved_to c c' (Z.of_nat (index + i)).
Proof.
  induction ids as [|id0 ids IH]; intros index i m c Hi Hlast Hc; [done|].
  destruct (set_position_lookup now id0 id index m c Hc)
    as (c1 & Hc1 & Hn & Ht & He & Hp).
  destruct i as [|i]; simpl in *.
  - injection Hi as ->. rewrite drop_0 in Hlast.
    rewrite assign_positions_other by done.
    exists c1. split; [done|]. unfold moved_to.
    rewrite Nat.add_0_r, Hp by done. done.
  - destruct (IH (S index) i _ c1 Hi Hlast Hc1) as (c' & Hc' & Hp' & Hn' & Ht' & He').
    exists c'. split; [done|]. unfold moved_to.
    replace (index + S i)%nat with (S index + i)%nat by lia.
    repeat split; congruence.
Qed.


(** [reorderContacts] of an admin with a list that is not empty, when every
    id is cast and every round trip is accepted. *)
Lemma reorderContacts_healthy (u : IUser.t) (ids : list string)
    (m : gmap string IAdminContact.t) (us : list IUser.t) (now : Z)
    (fs : list bool) :
  is_admin u → ids ≠ [] →
  Forall (λ id, castable id = true) ids → Forall (λ b, b = false) fs →
  reorderContacts (Some u) (Some ids) (mkWorld (mkDb m us) now fs) =
    (Json 200 (MessageBody "Contacts reordered successfully"),
     mkWorld (mkDb (assign_positions now 0 ids m) us) now
       (drop (length ids) fs)).
Proof.
  intros Hu Hids Hcast Hfs. unfold reorderContacts.
  rewrite (is_admin_includes u Hu). simpl.
  destruct ids as [|id ids]; [done|]. unfold_handler.
  by rewrite (reorder_loop_healthy (id :: ids) 0 m us now fs Hcast Hfs).
Qed.








(** ** Adding a contact *)

Lemma trim_not_empty (s : string) : trim s ≠ "" → s ≠ "".
Proof. intros H ->. by apply H. Qed.

Lemma js_not_present (s : string) : s ≠ "" → js_not (Some s) = false.
Proof.
  intros H. unfold js_not. simpl. by destruct (String.eqb_spec s "").
Qed.

Lemma require_present (path s : string) (w : World) :
  s ≠ "" → require path (Some s) w = (Ok tt, w).
Proof.
  intros H. unfold require. simpl. by destruct (String.eqb_spec s "").
Qed.

Lemma fresh_id_unused (m : gmap string IAdminContact.t) :
  m !! new_object_id (dom m) = None.
Proof.
  apply not_elem_of_dom. unfold new_object_id.
  rewrite <- elem_of_elements.
  apply (@infinite_is_fresh string object_id_infinite).
Qed.

(** C5, as amended.  For an admin, [addContact] answers 400 and stores
    nothing when [name], [title] or [email] is missing or empty.  When the
    three are present and none is blank after trimming, and the database
    accepts the insert, it stores one new contact, under an id not used
    before, with the trimmed [name], [title] and [email] and position 0, and
    answers 201 with that contact. *)
Theorem addContact_validates_and_persists (u : IUser.t) (body : AddBody)
    (w : World) :
  is_admin u →
  (incomplete body →
   addContact (Some u) body w =
     (Next (mkCustomError "All fields are required" 400), w)) ∧
  (∀ n t e : string,
     body = mkAddBody (Some n) (Some t) (Some e) →
     trim n ≠ "" → trim t ≠ "" → trim e ≠ "" → healthy w →
     ∃ (id : string) (doc : IAdminContact.t) (w' : World),
       addContact (Some u) body w =
         (Json 201 (ContactBody "Admin contact added successfully" (id, doc)),
          w') ∧
       admincontacts (db w) !! id = None ∧
       admincontacts (db w') = <[id := doc]> (admincontacts (db w)) ∧
       users (db w') = users (db w) ∧
       IAdminContact.name doc = trim n ∧
       IAdminContact.title doc = trim t ∧
       IAdminContact.email doc = trim e ∧
       IAdminContact.position doc = 0).
Proof.
  intros Hu. split; [by apply addContact_incomplete|].
  intros n t e -> Hn Ht He Hw. unfold addContact.
  rewrite (is_admin_includes u Hu). simpl.
  rewrite !js_not_present by (by apply trim_not_empty). simpl.
  unfold AdminContact.new, AdminContact.save. unfold_handler. simpl.
  rewrite !require_present by done.
  rewrite (round_trip_healthy w Hw). simpl.
  eexists _, _, _. split; [reflexivity|]. simpl.
  split; [apply fresh_id_unused|]. done.
Qed.

Lemma addContact_validates_and_persists_witness :
  ∃ (id : string) (doc : IAdminContact.t) (w' : World),
    addContact (Some admin_user)
      (mkAddBody (Some " Dan ") (Some "Advisor") (Some "dan@x")) sample_world =
      (Json 201 (ContactBody "Admin contact added successfully" (id, doc)), w') ∧
    IAdminContact.name doc = "Dan".
Proof.
  destruct (proj2 (addContact_validates_and_persists admin_user
                     (mkAddBody (Some " Dan ") (Some "Advisor") (Some "dan@x"))
                     sample_world (or_introl eq_refl))
              " Dan " "Advisor" "dan@x")
    as (id & doc & w' & Hr & _ & _ & _ & Hn & _);
    [reflexivity | vm_compute; discriminate | vm_compute; discriminate
    | vm_compute; discriminate | constructor |].
  exists id, doc, w'. split; [exact Hr|]. rewrite Hn. vm_compute. reflexivity.
Defined.

(** C5, the counterexample: the three fields are present and not empty, the
    name is a single space; the answer is 500 and nothing is stored. *)
Lemma addContact_blank_name_counterexample :
  js_not (Some " ") = false ∧
  addContact (Some admin_user)
    (mkAddBody (Some " ") (Some "Coordinator") (Some "dan@x")) sample_world =
    (Next (mkCustomError "Failed to add contact" 500), sample_world).
Proof. split; vm_compute; reflexivity. Qed.

(** ** Updating and deleting a contact *)

Lemma validate_path_valid (path : string) (o : option string) (w : World) :
  valid_field o → AdminContact.validate_path path (apply_trim o) w = (Ok tt, w).
Proof.
  intros H. destruct o as [s|]; simpl; [|done].
  apply require_present. by apply H.
Qed.

Lemma validate_path_blank (path : string) (o : option string) (w : World) :
  blank_field o →
  AdminContact.validate_path path (apply_trim o) w =
    (Throw (ValidationError path), w).
Proof. intros (s & -> & Hs). simpl. by rewrite Hs. Qed.

Lemma validate_path_either (path : string) (o : option string) (w : World) :
  AdminContact.validate_path path (apply_trim o) w = (Ok tt, w) ∨
  AdminContact.validate_path path (apply_trim o) w =
    (Throw (ValidationError path), w).
Proof.
  destruct o as [s|]; simpl; [|by left]. unfold require. simpl.
  destruct (String.eqb (trim s) ""); [by right | by left].
Qed.

Lemma validate_update_valid (updates : UpdateBody) (w : World) :
  valid_update updates →
  AdminContact.validate_update
    (AdminContact.cast_update
       (AdminContact.mkUpdate (upd_name updates) (upd_title updates)
          (upd_email updates) (upd_position updates) (upd_user updates))) w =
    (Ok tt, w).
Proof.
  intros (Hn & Ht & He & _). unfold AdminContact.validate_update. unfold_handler.
  simpl. by rewrite !validate_path_valid.
Qed.

Lemma validate_update_blank (updates : UpdateBody) (w : World) :
  blank_field (upd_name updates) ∨ blank_field (upd_title updates) ∨
  blank_field (upd_email updates) →
  ∃ path,
    AdminContact.validate_update
      (AdminContact.cast_update
         (AdminContact.mkUpdate (upd_name updates) (upd_title updates)
            (upd_email updates) (upd_position updates) (upd_user updates))) w =
      (Throw (ValidationError path), w).
Proof.
  intros Hb. unfold AdminContact.validate_update. unfold_handler. simpl.
  destruct (validate_path_either "name" (upd_name updates) w) as [Hn|Hn];
    rewrite Hn; [|by eexists].
  destruct (validate_path_either "title" (upd_title updates) w) as [Ht|Ht];
    rewrite Ht; [|by eexists].
  destruct (validate_path_either "email" (upd_email updates) w) as [He|He];
    rewrite He; [|by eexists].
  destruct Hb as [Hb|[Hb|Hb]].
  - pose proof (validate_path_blank "name" _ w Hb). congruence.
  - pose proof (validate_path_blank "title" _ w Hb). congruence.
  - pose proof (validate_path_blank "email" _ w Hb). congruence.
Qed.

Lemma cast_reference_either (updates : UpdateBody) (w : World) :
  (valid_reference (upd_user updates) ∧
   AdminContact.cast_reference
     (AdminContact.cast_update
        (AdminContact.mkUpdate (upd_name updates) (upd_title updates)
           (upd_email updates) (upd_position updates) (upd_user updates))) w =
     (Ok tt, w)) ∨
  (bad_reference (upd_user updates) ∧
   AdminContact.cast_reference
     (AdminContact.cast_update
        (AdminContact.mkUpdate (upd_name updates) (upd_title updates)
           (upd_email updates) (upd_position updates) (upd_user updates))) w =
     (Throw (CastError "user"), w)).
Proof.
  unfold AdminContact.cast_reference, valid_reference, bad_reference. simpl.
  destruct (upd_user updates) as [s|]; [|left; by split].
  destruct (castable s) eqn:Hs.
  - left. split; [by intros ? [= <-] | by apply cast_id_ok].
  - right. split; [by exists s | by apply cast_id_fails].
Qed.

Lemma valid_or_refused (updates : UpdateBody) :
  valid_update updates ∨ refused_update updates.
Proof.
  assert (Hf : ∀ o, valid_field o ∨ blank_field o).
  { intros [s|].
    - destruct (decide (trim s = "")) as [Hs|Hs].
      + right. by exists s.
      + left. by intros ? [= <-].
    - left. by intros ?. }
  assert (Hr : valid_reference (upd_user updates) ∨
               bad_reference (upd_user updates)).
  { destruct (cast_reference_either updates (mkWorld (mkDb ∅ []) 0 []))
      as [[? _]|[? _]]; [by left | by right]. }
  unfold valid_update, refused_update.
  destruct (Hf (upd_name updates)), (Hf (upd_title updates)),
    (Hf (upd_email updates)), Hr; tauto.
Qed.

(** An update with an id that cannot be cast, a reference that cannot be
    cast or a blank field is stopped before the database is asked. *)
Lemma updateContact_refused (u : IUser.t) (id : string) (updates : UpdateBody)
    (w : World) :
  is_admin u → castable id = false ∨ refused_update updates →
  updateContact (Some u) id updates w =
    (Next (mkCustomError "Failed to update contact" 500), w).
Proof.
  intros Hu Href. unfold updateContact.
  rewrite (is_admin_includes u Hu). simpl.
  unfold AdminContact.findByIdAndUpdate. unfold_handler.
  cbn [AdminContact.opt_runValidators AdminContact.opt_new].
  destruct (castable id) eqn:Hid;
    [rewrite (cast_id_ok "_id" id w Hid)
    |by rewrite (cast_id_fails "_id" id w Hid)].
  destruct (cast_reference_either updates w) as [[Hv ->]|[Hbad ->]]; [|done].
  destruct Href as [?|[Hb|[Hb|[Hb|(s & Hs & Hbad)]]]]; [done| | | |].
  1-3: destruct (validate_update_blank updates w) as [path ->]; [tauto|done].
  rewrite (Hv s Hs) in Hbad. done.
Qed.

(** With an id that can be cast and an update that is accepted, the answer
    is decided by the one round trip and by whether the id has a contact. *)
Lemma updateContact_run (u : IUser.t) (id : string) (updates : UpdateBody)
    (w : World) :
  is_admin u → castable id = true → valid_update updates →
  updateContact (Some u) id updates w =
    if default false (head (faults w))
    then (Next (mkCustomError "Failed to update contact" 500), advance w)
    else
      match admincontacts (db w) !! id with
      | None => (Next (mkCustomError "Contact not found" 404), advance w)
      | Some c =>
          let c' := AdminContact.apply_update
                      (AdminContact.cast_update
                         (AdminContact.mkUpdate (upd_name updates)
                            (upd_title updates) (upd_email updates)
                            (upd_position updates) (upd_user updates)))
                      (clock w) c in
          (Json 200 (ContactBody "Contact updated successfully" (id, c')),
           set_contacts (<[id := c']> (admincontacts (db w))) (advance w))
      end.
Proof.
  intros Hu Hid Hv. unfold updateContact.
  rewrite (is_admin_includes u Hu). simpl.
  unfold AdminContact.findByIdAndUpdate. unfold_handler.
  cbn [AdminContact.opt_runValidators AdminContact.opt_new].
  rewrite (cast_id_ok "_id" id w Hid).
  destruct (cast_reference_either updates w) as [[_ ->]|[(s & Hs & Hbad) _]].
  2:{ destruct Hv as (_ & _ & _ & Hr). rewrite (Hr s Hs) in Hbad. done. }
  rewrite (validate_update_valid updates w Hv).
  unfold round_trip, advance.
  destruct (default false (head (faults w))); [done|]. simpl.
  by destruct (admincontacts (db w) !! id).
Qed.

Lemma deleteContact_uncastable (u : IUser.t) (id : string) (w : World) :
  is_admin u → castable id = false →
  deleteContact (Some u) id w =
    (Next (mkCustomError "Failed to delete contact" 500), w).
Proof.
  intros Hu Hid. unfold deleteContact.
  rewrite (is_admin_includes u Hu). simpl.
  unfold AdminContact.findByIdAndDelete. unfold_handler.
  by rewrite (cast_id_fails "_id" id w Hid).
Qed.

Lemma deleteContact_run (u : IUser.t) (id : string) (w : World) :
  is_admin u → castable id = true →
  deleteContact (Some u) id w =
    if default false (head (faults w))
    then (Next (mkCustomError "Failed to delete contact" 500), advance w)
    else
      match admincontacts (db w) !! id with
      | None => (Next (mkCustomError "Contact not found" 404), advance w)
      | Some _ =>
          (Json 200 (SuccessBody true "Contact deleted successfully"),
           set_contacts (delete id (admincontacts (db w))) (advance w))
      end.
Proof.
  intros Hu Hid. unfold deleteContact.
  rewrite (is_admin_includes u Hu). simpl.
  unfold AdminContact.findByIdAndDelete. unfold_handler.
  rewrite (cast_id_ok "_id" id w Hid).
  unfold round_trip, advance.
  destruct (default false (head (faults w))); [done|]. simpl.
  by destruct (admincontacts (db w) !! id).
Qed.

Lemma healthy_head (w : World) :
  healthy w → default false (head (faults w)) = false.
Proof.
  unfold healthy. destruct (faults w) as [|b fs]; [done|].
  by intros [-> _]%Forall_cons.
Qed.




(** ** Further properties: how the handlers run *)

Lemma getContacts_healthy (w : World) :
  healthy w →
  getContacts w =
    (Json 200 (ContactsBody (listing (db w))), advance (advance w)).
Proof.
  intros Hw. unfold getContacts, AdminContact.find_sort_position,
    userModel.find_email_in. unfold_handler.
  rewrite (round_trip_healthy w Hw). simpl.
  rewrite (round_trip_healthy (advance w) (healthy_advance w Hw)). done.
Qed.

(** X1.  [getContacts] answers 500 when the database rejects one of its two
    queries, and 200 when it rejects neither. *)
Theorem getContacts_answer (w : World) :
  (faults w !! 0%nat = Some true ∨
   (faults w !! 0%nat ≠ Some true ∧ faults w !! 1%nat = Some true) →
   (getContacts w).1 = Next (mkCustomError "Failed to fetch contacts" 500)) ∧
  (faults w !! 0%nat ≠ Some true → faults w !! 1%nat ≠ Some true →
   (getContacts w).1 = Json 200 (ContactsBody (listing (db w)))).
Proof.
  destruct w as [d now fs].
  unfold getContacts, AdminContact.find_sort_position,
    userModel.find_email_in, round_trip. unfold_handler. simpl.
  destruct fs as [|[] [|[] fs]]; simpl;
    (split; [intros [H|[H1 H2]] | intros H1 H2]);
    first [reflexivity | congruence].
Qed.

Lemma getContacts_answer_witness :
  (getContacts (faulty_world [false; true])).1 =
    Next (mkCustomError "Failed to fetch contacts" 500) ∧
  ∃ l, (getContacts (faulty_world [false; false; true])).1 =
         Json 200 (ContactsBody l) ∧ length l = 3%nat.
Proof.
  destruct (getContacts_answer (faulty_world [false; true])) as [Hbad _].
  destruct (getContacts_answer (faulty_world [false; false; true])) as [_ Hgood].
  split.
  - apply Hbad. right. split; [discriminate | reflexivity].
  - eexists. split; [apply Hgood; discriminate|]. vm_compute. reflexivity.
Defined.

(** ** Further properties: trimming *)















(** ** Further properties: adding a contact *)

Lemma require_blank (path : string) (w : World) :
  require path (Some "") w = (Throw (ValidationError path), w).
Proof. reflexivity. Qed.

Lemma js_not_false (o : option string) :
  js_not o = false → ∃ s, o = Some s ∧ s ≠ "".
Proof.
  intros H. destruct o as [s|]; [|done]. exists s. split; [done|].
  intros ->. done.
Qed.

(** A field that is blank once trimmed stops [save()] before the database
    is reached. *)
Lemma addContact_blank (u : IUser.t) (n t e : string) (w : World) :
  is_admin u → n ≠ "" → t ≠ "" → e ≠ "" →
  trim n = "" ∨ trim t = "" ∨ trim e = "" →
  addContact (Some u) (mkAddBody (Some n) (Some t) (Some e)) w =
    (Next (mkCustomError "Failed to add contact" 500), w).
Proof.
  intros Hu Hn Ht He Hblank. unfold addContact.
  rewrite (is_admin_includes u Hu). simpl.
  rewrite !js_not_present by done. simpl.
  unfold AdminContact.new, AdminContact.save. unfold_handler. simpl.
  destruct (decide (trim n = "")) as [->|Hn']; [by rewrite require_blank|].
  rewrite require_present by done.
  destruct (decide (trim t = "")) as [->|Ht']; [by rewrite require_blank|].
  rewrite require_present by done.
  destruct (decide (trim e = "")) as [->|He']; [by rewrite require_blank|].
  by destruct Hblank as [?|[?|?]].
Qed.

(** With three fields that survive trimming, the answer is decided by the
    one round trip. *)
Lemma addContact_run (u : IUser.t) (n t e : string) (w : World) :
  is_admin u → trim n ≠ "" → trim t ≠ "" → trim e ≠ "" →
  addContact (Some u) (mkAddBody (Some n) (Some t) (Some e)) w =
    if default false (head (faults w))
    then (Next (mkCustomError "Failed to add contact" 500), advance w)
    else
      let id := new_object_id (dom (admincontacts (db w))) in
      let doc := IAdminContact.mk (trim n) (trim t) (trim e) 0 None
                   (clock w) (clock w) in
      (Json 201 (ContactBody "Admin contact added successfully" (id, doc)),
       set_contacts (<[id := doc]> (admincontacts (db w))) (advance w)).
Proof.
  intros Hu Hn Ht He. unfold addContact.
  rewrite (is_admin_includes u Hu). simpl.
  rewrite !js_not_present by (by apply trim_not_empty). simpl.
  unfold AdminContact.new, AdminContact.save. unfold_handler. simpl.
  rewrite !require_present by done. unfold round_trip, advance.
  by destruct (default false (head (faults w))).
Qed.

(** Every way [addContact] can go. *)
Lemma addContact_outcome (user : option IUser.t) (body : AddBody) (w : World) :
  (status_of (addContact user body w).1 ∈ [400; 401; 403; 500] ∧
   db (addContact user body w).2 = db w ∧
   clock (addContact user body w).2 = clock w) ∨
  (∃ n t e,
     body = mkAddBody (Some n) (Some t) (Some e) ∧
     trim n ≠ "" ∧ trim t ≠ "" ∧ trim e ≠ "" ∧
     (addContact user body w).1 =
       Json 201 (ContactBody "Admin contact added successfully"
                   (new_object_id (dom (admincontacts (db w))),
                    IAdminContact.mk (trim n) (trim t) (trim e) 0 None
                      (clock w) (clock w))) ∧
     (addContact user body w).2 =
       set_contacts
         (<[new_object_id (dom (admincontacts (db w))) :=
            IAdminContact.mk (trim n) (trim t) (trim e) 0 None
              (clock w) (clock w)]> (admincontacts (db w))) (advance w)).
Proof.
  destruct user as [u|].
  2:{ left. assert (H : addContact None body w = (unauthorized, w))
        by exact (run_mutation_unauthorized (AddContact body) w).
      rewrite H. simpl. split; [in_list | done]. }
  destruct (includes adminLevels (IUser.user_level_id u)) eqn:Hadm.
  2:{ left. assert (H : addContact (Some u) body w = (forbidden, w))
        by exact (run_mutation_forbidden (AddContact body) u w Hadm).
      rewrite H. simpl. split; [in_list | done]. }
  apply includes_adminLevels in Hadm.
  destruct (js_not (add_name body) || js_not (add_title body)
            || js_not (add_email body)) eqn:Hb.
  { left. apply incomplete_check in Hb.
    rewrite (addContact_incomplete u body w Hadm Hb). simpl.
    split; [in_list | done]. }
  apply orb_false_iff in Hb as [Hb He]. apply orb_false_iff in Hb as [Hn Ht].
  apply js_not_false in Hn as (n & Hn & Hn'), Ht as (t & Ht & Ht'),
    He as (e & He & He').
  destruct body as [bn bt be]. simpl in *. subst bn bt be.
  destruct (decide (trim n = "")) as [Hbn|Hbn];
    [|destruct (decide (trim t = "")) as [Hbt|Hbt];
      [|destruct (decide (trim e = "")) as [Hbe|Hbe]]].
  1-3: left; rewrite (addContact_blank u n t e w Hadm Hn' Ht' He') by tauto;
       simpl;
       (split; [in_list | done]).
  rewrite addContact_run by done.
  destruct (default false (head (faults w))).
  - left. simpl. split; [in_list | done].
  - right. exists n, t, e. done.
Qed.

(** ** Further properties: updating and deleting *)

(** Every way [updateContact] can go. *)
Lemma updateContact_outcome (user : option IUser.t) (id : string)
    (updates : UpdateBody) (w : World) :
  (status_of (updateContact user id updates w).1 ∈ [401; 403; 404; 500] ∧
   db (updateContact user id updates w).2 = db w ∧
   clock (updateContact user id updates w).2 = clock w) ∨
  (∃ c, admincontacts (db w) !! id = Some c ∧ valid_update updates ∧
     let c' := AdminContact.apply_update
                 (AdminContact.cast_update
                    (AdminContact.mkUpdate (upd_name updates)
                       (upd_title updates) (upd_email updates)
                       (upd_position updates) (upd_user updates)))
                 (clock w) c in
     (updateContact user id updates w).1 =
       Json 200 (ContactBody "Contact updated successfully" (id, c')) ∧
     (updateContact user id updates w).2 =
       set_contacts (<[id := c']> (admincontacts (db w))) (advance w)).
Proof.
  destruct user as [u|].
  2:{ left. assert (H : updateContact None id updates w = (unauthorized, w))
        by exact (run_mutation_unauthorized (UpdateContact id updates) w).
      rewrite H. simpl. split; [in_list | done]. }
  destruct (includes adminLevels (IUser.user_level_id u)) eqn:Hadm.
  2:{ left. assert (H : updateContact (Some u) id updates w = (forbidden, w))
        by exact (run_mutation_forbidden (UpdateContact id updates) u w Hadm).
      rewrite H. simpl. split; [in_list | done]. }
  apply includes_adminLevels in Hadm.
  destruct (castable id) eqn:Hid.
  2:{ left. rewrite (updateContact_refused u id updates w Hadm (or_introl Hid)).
      simpl. split; [in_list | done]. }
  destruct (valid_or_refused updates) as [Hv|Hb].
  2:{ left. rewrite (updateContact_refused u id updates w Hadm (or_intror Hb)).
      simpl. split; [in_list | done]. }
  rewrite (updateContact_run u id updates w Hadm Hid Hv).
  destruct (default false (head (faults w))).
  { left. simpl. split; [in_list | done]. }
  destruct (admincontacts (db w) !! id) as [c|] eqn:Hc.
  - right. exists c. done.
  - left. simpl. split; [in_list | done].
Qed.

(** Every way [deleteContact] can go. *)
Lemma deleteContact_outcome (user : option IUser.t) (id : string) (w : World) :
  (status_of (deleteContact user id w).1 ∈ [401; 403; 404; 500] ∧
   db (deleteContact user id w).2 = db w ∧
   clock (deleteContact user id w).2 = clock w) ∨
  (is_Some (admincontacts (db w) !! id) ∧
   (deleteContact user id w).1 =
     Json 200 (SuccessBody true "Contact deleted successfully") ∧
   (deleteContact user id w).2 =
     set_contacts (delete id (admincontacts (db w))) (advance w)).
Proof.
  destruct user as [u|].
  2:{ left. assert (H : deleteContact None id w = (unauthorized, w))
        by exact (run_mutation_unauthorized (DeleteContact id) w).
      rewrite H. simpl. split; [in_list | done]. }
  destruct (includes adminLevels (IUser.user_level_id u)) eqn:Hadm.
  2:{ left. assert (H : deleteContact (Some u) id w = (forbidden, w))
        by exact (run_mutation_forbidden (DeleteContact id) u w Hadm).
      rewrite H. simpl. split; [in_list | done]. }
  apply includes_adminLevels in Hadm.
  destruct (castable id) eqn:Hid.
  2:{ left. rewrite (deleteContact_uncastable u id w Hadm Hid).
      simpl. split; [in_list | done]. }
  rewrite (deleteContact_run u id w Hadm Hid).
  destruct (default false (head (faults w))).
  { left. simpl. split; [in_list | done]. }
  destruct (admincontacts (db w) !! id) as [c|] eqn:Hc.
  - right. done.
  - left. simpl. split; [in_list | done].
Qed.

(** ** Further properties: reordering *)

Lemma carried_refl (R : relation IAdminContact.t)
    (m : gmap string IAdminContact.t) :
  (∀ c, R c c) → carried R m m.
Proof. intros HR id. destruct (m !! id) as [c|]; [|done]. by exists c. Qed.

Lemma carried_trans (R : relation IAdminContact.t)
    (m1 m2 m3 : gmap string IAdminContact.t) :
  (∀ a b c, R a b → R b c → R a c) →
  carried R m1 m2 → carried R m2 m3 → carried R m1 m3.
Proof.
  intros HR H12 H23 id. specialize (H12 id). specialize (H23 id).
  destruct (m1 !! id) as [c1|].
  - destruct H12 as (c2 & Hc2 & H12). rewrite Hc2 in H23.
    destruct H23 as (c3 & Hc3 & H23). exists c3. eauto.
  - by rewrite H12 in H23.
Qed.

Lemma repositioned_refl (c : IAdminContact.t) : repositioned c c.
Proof. by repeat split. Qed.

Lemma repositioned_trans (a b c : IAdminContact.t) :
  repositioned a b → repositioned b c → repositioned a c.
Proof.
  unfold repositioned, same_origin.
  intros (?&?&?&?&?) (?&?&?&?&?). repeat split; congruence.
Qed.

Lemma set_position_carried (now : Z) (id : string) (index : nat)
    (m : gmap string IAdminContact.t) :
  carried repositioned m (set_position now id index m).
Proof.
  intros id'. unfold set_position.
  destruct (m !! id) as [c|] eqn:Hc.
  - destruct (decide (id = id')) as [<-|Hne].
    + rewrite Hc, lookup_insert_eq. eexists. split; [done|]. by repeat split.
    + rewrite lookup_insert_ne by done.
      destruct (m !! id') as [c'|]; [|done]. exists c'.
      split; [done | apply repositioned_refl].
  - destruct (m !! id') as [c'|]; [|done]. exists c'.
    split; [done | apply repositioned_refl].
Qed.

Lemma assign_positions_carried (now : Z) (ids : list string) :
  ∀ (index : nat) (m : gmap string IAdminContact.t),
    carried repositioned m (assign_positions now index ids m).
Proof.
  induction ids as [|id ids IH]; intros index m.
  - apply carried_refl, repositioned_refl.
  - simpl. eapply carried_trans;
      [apply repositioned_trans | apply set_position_carried | apply IH].
Qed.

(** The loop under any fault script: some prefix of the ids has been
    assigned, some prefix of the script has been used. *)
Lemma reorder_loop_any (ids : list string) :
  ∀ (index : nat) (m : gmap string IAdminContact.t) (us : list IUser.t)
    (now : Z) (fs : list bool),
    ∃ (k j : nat) (r : result unit),
      reorder_loop index ids (mkWorld (mkDb m us) now fs) =
        (r, mkWorld (mkDb (assign_positions now index (take k ids) m) us) now
              (drop j fs)).
Proof.
  induction ids as [|id ids IH]; intros index m us now fs.
  - exists 0%nat, 0%nat, (Ok tt). done.
  - cbn [reorder_loop]. unfold mbind, M_bind.
    destruct (castable id) eqn:Hid.
    2:{ rewrite reorder_step_uncastable by done.
        exists 0%nat, 0%nat, (Throw (CastError "_id")). done. }
    destruct fs as [|[] fs].
    + rewrite reorder_step_idle by done.
      destruct (IH (S index) (set_position now id index m) us now [])
        as (k & j & r & ->).
      exists (S k), j, r. done.
    + rewrite reorder_step by done.
      exists 0%nat, 1%nat, (Throw DriverError). done.
    + rewrite reorder_step by done.
      destruct (IH (S index) (set_position now id index m) us now fs)
        as (k & j & r & ->).
      exists (S k), (S j), r. done.
Qed.

(** Every way [reorderContacts] can go. *)
Lemma reorderContacts_outcome (user : option IUser.t)
    (orderedIds : option (list string)) (w : World) :
  status_of (reorderContacts user orderedIds w).1 ∈ [200; 400; 401; 403; 500] ∧
  users (db (reorderContacts user orderedIds w).2) = users (db w) ∧
  clock (reorderContacts user orderedIds w).2 = clock w ∧
  ∃ done_ids : list string,
    admincontacts (db (reorderContacts user orderedIds w).2) =
      assign_positions (clock w) 0 done_ids (admincontacts (db w)).
Proof.
  destruct user as [u|].
  2:{ assert (H : reorderContacts None orderedIds w = (unauthorized, w))
        by exact (run_mutation_unauthorized (ReorderContacts orderedIds) w).
      rewrite H. simpl. split; [in_list|]. split; [done|]. split; [done|].
      by exists []. }
  destruct (includes adminLevels (IUser.user_level_id u)) eqn:Hadm.
  2:{ assert (H : reorderContacts (Some u) orderedIds w = (forbidden, w))
        by exact (run_mutation_forbidden (ReorderContacts orderedIds) u w Hadm).
      rewrite H. simpl. split; [in_list|]. split; [done|]. split; [done|].
      by exists []. }
  apply includes_adminLevels in Hadm.
  destruct orderedIds as [[|id ids]|].
  1,3: rewrite (reorderContacts_invalid u _ w Hadm) by (first [by left | by right]);
       simpl; (split; [in_list|]); (split; [done|]); (split; [done|]);
       by exists [].
  destruct w as [[m us] now fs]. unfold reorderContacts.
  rewrite (is_admin_includes u Hadm). simpl negb. cbv iota. unfold_handler.
  destruct (reorder_loop_any (id :: ids) 0 m us now fs) as (k & j & r & ->).
  destruct r as [[]|e]; simpl; (split; [in_list|]); (split; [done|]);
    (split; [done|]); by eexists.
Qed.

(** ** Further properties: what the mutations leave alone *)

(** X2.  [reorderContacts], whoever calls it, with whatever list and
    whichever updates the database rejects, adds no contact, removes none,
    and leaves the name, title, e-mail, user reference and [createdAt] of
    every contact as they were. *)
Theorem reorderContacts_keeps_contacts (user : option IUser.t)
    (orderedIds : option (list string)) (w : World) :
  carried repositioned (admincontacts (db w))
    (admincontacts (db (reorderContacts user orderedIds w).2)).
Proof.
  destruct (reorderContacts_outcome user orderedIds w)
    as (_ & _ & _ & done_ids & ->).
  apply assign_positions_carried.
Qed.


(** X4.  The three handlers that write once change nothing when they fail:
    whenever [addContact] answers anything but 201, and [updateContact] or
    [deleteContact] anything but 200, the database is as before. *)
Theorem single_write_failure_atomic (user : option IUser.t) (w : World) :
  (∀ body, status_of (addContact user body w).1 ≠ 201 →
           db (addContact user body w).2 = db w) ∧
  (∀ id updates, status_of (updateContact user id updates w).1 ≠ 200 →
                 db (updateContact user id updates w).2 = db w) ∧
  (∀ id, status_of (deleteContact user id w).1 ≠ 200 →
         db (deleteContact user id w).2 = db w).
Proof.
  split; [|split].
  - intros body Hs. destruct (addContact_outcome user body w)
      as [(_ & Hdb & _) | (n & t & e & _ & _ & _ & _ & Hr & _)]; [done|].
    rewrite Hr in Hs. by destruct Hs.
  - intros id updates Hs. destruct (updateContact_outcome user id updates w)
      as [(_ & Hdb & _) | (c & _ & _ & Hr & _)]; [done|].
    rewrite Hr in Hs. by destruct Hs.
  - intros id Hs. destruct (deleteContact_outcome user id w)
      as [(_ & Hdb & _) | (_ & Hr & _)]; [done|].
    rewrite Hr in Hs. by destruct Hs.
Qed.

Lemma single_write_failure_atomic_witness :
  db (addContact (Some admin_user)
        (mkAddBody (Some "Dan") (Some "Advisor") (Some "dan@x"))
        (faulty_world [true])).2 = db (faulty_world [true]) ∧
  db (deleteContact (Some admin_user) idA (faulty_world [true])).2 =
    db (faulty_world [true]).
Proof.
  destruct (single_write_failure_atomic (Some admin_user) (faulty_world [true]))
    as (Hadd & _ & Hdel).
  split.
  - apply Hadd. vm_compute. discriminate.
  - apply Hdel. vm_compute. discriminate.
Defined.

Lemma getContacts_clock (w : World) : clock (getContacts w).2 = clock w.
Proof.
  destruct w as [d now fs].
  unfold getContacts, AdminContact.find_sort_position,
    userModel.find_email_in, round_trip. unfold_handler. simpl.
  by destruct fs as [|[] [|[] fs]].
Qed.

Lemma run_mutation_users_clock (op : AdminMutation) (user : option IUser.t)
    (w : World) :
  users (db (run_mutation op user w).2) = users (db w) ∧
  clock (run_mutation op user w).2 = clock w.
Proof.
  destruct op as [body|id updates|id|orderedIds]; simpl.
  - destruct (addContact_outcome user body w)
      as [(_ & -> & ->) | (n & t & e & _ & _ & _ & _ & _ & ->)]; done.
  - destruct (updateContact_outcome user id updates w)
      as [(_ & -> & ->) | (c & _ & _ & _ & ->)]; done.
  - destruct (deleteContact_outcome user id w)
      as [(_ & -> & ->) | (_ & _ & ->)]; done.
  - destruct (reorderContacts_outcome user orderedIds w) as (_ & -> & -> & _).
    done.
Qed.

(** X5.  No handler of the contact controller writes to the user collection
    or touches the clock, on any path: not the four mutations, whoever calls
    them with whatever payload, and not [getContacts]. *)
Theorem contact_handlers_leave_users (user : option IUser.t) (w : World) :
  (∀ op, users (db (run_mutation op user w).2) = users (db w) ∧
         clock (run_mutation op user w).2 = clock w) ∧
  users (db (getContacts w).2) = users (db w) ∧
  clock (getContacts w).2 = clock w.
Proof.
  split.
  - intros op. apply run_mutation_users_clock.
  - split.
    + by rewrite getContacts_db.
    + apply getContacts_clock.
Qed.

(** X6.  The status codes each handler can answer with.  [updateContact]
    and [deleteContact] never answer 400: a payload the validators reject is
    answered 500. *)
Theorem handler_status_codes (user : option IUser.t) (w : World) :
  status_of (getContacts w).1 ∈ [200; 500] ∧
  (∀ body, status_of (addContact user body w).1 ∈ [201; 400; 401; 403; 500]) ∧
  (∀ id updates,
     status_of (updateContact user id updates w).1 ∈ [200; 401; 403; 404; 500]) ∧
  (∀ id, status_of (deleteContact user id w).1 ∈ [200; 401; 403; 404; 500]) ∧
  (∀ orderedIds,
     status_of (reorderContacts user orderedIds w).1 ∈ [200; 400; 401; 403; 500]).
Proof.
  split; [|split; [|split; [|split]]].
  - destruct w as [d now fs].
    unfold getContacts, AdminContact.find_sort_position,
      userModel.find_email_in, round_trip. unfold_handler. simpl.
    destruct fs as [|[] [|[] fs]]; simpl; in_list.
  - intros body. destruct (addContact_outcome user body w)
      as [(Hs & _) | (n & t & e & _ & _ & _ & _ & -> & _)]; [|simpl; in_list].
    revert Hs. generalize (status_of (addContact user body w).1). intros z.
    rewrite !elem_of_cons. tauto.
  - intros id updates. destruct (updateContact_outcome user id updates w)
      as [(Hs & _) | (c & _ & _ & -> & _)]; [|simpl; in_list].
    revert Hs. generalize (status_of (updateContact user id updates w).1).
    intros z. rewrite !elem_of_cons. tauto.
  - intros id. destruct (deleteContact_outcome user id w)
      as [(Hs & _) | (_ & -> & _)]; [|simpl; in_list].
    revert Hs. generalize (status_of (deleteContact user id w).1).
    intros z. rewrite !elem_of_cons. tauto.
  - intros o. apply reorderContacts_outcome.
Qed.

(** ** Further properties: the schema as an invariant *)







(** ** Further properties: rejections *)

(** X8.  A field that is blank once trimmed is answered 500, by
    [addContact] (though the field is not empty, so not 400) and by
    [updateContact] (whether the id has a contact or not, so not 404); the
    database is not even asked, and the world is as before. *)
Theorem blank_field_rejected (u : IUser.t) (w : World) :
  is_admin u →
  (∀ n t e : string,
     n ≠ "" → t ≠ "" → e ≠ "" →
     trim n = "" ∨ trim t = "" ∨ trim e = "" →
     addContact (Some u) (mkAddBody (Some n) (Some t) (Some e)) w =
       (Next (mkCustomError "Failed to add contact" 500), w)) ∧
  (∀ (id : string) (updates : UpdateBody),
     blank_field (upd_name updates) ∨ blank_field (upd_title updates) ∨
     blank_field (upd_email updates) →
     updateContact (Some u) id updates w =
       (Next (mkCustomError "Failed to update contact" 500), w)).
Proof.
  intros Hu. split.
  - intros n t e Hn Ht He Hb. by apply addContact_blank.
  - intros id updates Hb. apply updateContact_refused; [done|].
    right. unfold refused_update. tauto.
Qed.

Lemma blank_field_rejected_witness :
  addContact (Some admin_user)
    (mkAddBody (Some "Dan") (Some "  ") (Some "dan@x")) sample_world =
    (Next (mkCustomError "Failed to add contact" 500), sample_world) ∧
  updateContact (Some admin_user) idD
    (mkUpdateBody None None (Some " ") None None) sample_world =
    (Next (mkCustomError "Failed to update contact" 500), sample_world).
Proof.
  destruct (blank_field_rejected admin_user sample_world) as [Hadd Hupd];
    [left; reflexivity|].
  split.
  - apply Hadd; [discriminate | discriminate | discriminate |].
    right. left. vm_compute. reflexivity.
  - apply Hupd. right. right. exists " ". split; vm_compute; reflexivity.
Defined.

(** X9.  When the database rejects the round trip of [addContact],
    [updateContact] or [deleteContact], an admin with a payload the schema
    accepts and an id that can be cast is answered 500 with the message of
    that handler, and the database is as before. *)
Theorem driver_rejection_reported (u : IUser.t) (w : World) :
  is_admin u → head (faults w) = Some true →
  (∀ n t e : string,
     trim n ≠ "" → trim t ≠ "" → trim e ≠ "" →
     addContact (Some u) (mkAddBody (Some n) (Some t) (Some e)) w =
       (Next (mkCustomError "Failed to add contact" 500), advance w)) ∧
  (∀ (id : string) (updates : UpdateBody),
     castable id = true → valid_update updates →
     updateContact (Some u) id updates w =
       (Next (mkCustomError "Failed to update contact" 500), advance w)) ∧
  (∀ id : string,
     castable id = true →
     deleteContact (Some u) id w =
       (Next (mkCustomError "Failed to delete contact" 500), advance w)) ∧
  db (advance w) = db w.
Proof.
  intros Hu Hf. split; [|split; [|split; [|done]]].
  - intros n t e Hn Ht He. rewrite addContact_run by done. by rewrite Hf.
  - intros id updates Hid Hv. rewrite updateContact_run by done. by rewrite Hf.
  - intros id Hid. rewrite deleteContact_run by done. by rewrite Hf.
Qed.

Lemma driver_rejection_reported_witness :
  deleteContact (Some admin_user) idA (faulty_world [true]) =
    (Next (mkCustomError "Failed to delete contact" 500), faulty_world []) ∧
  updateContact (Some admin_user) idA
    (mkUpdateBody (Some "Anna") None None None None) (faulty_world [true]) =
    (Next (mkCustomError "Failed to update contact" 500), faulty_world []).
Proof.
  destruct (driver_rejection_reported admin_user (faulty_world [true]))
    as (_ & Hupd & Hdel & _); [left; reflexivity | reflexivity |].
  split.
  - apply Hdel. reflexivity.
  - apply Hupd; [reflexivity|].
    split; [|split; [|split]]; intros s Hs; try discriminate Hs.
    injection Hs as <-. vm_compute. discriminate.
Defined.

(** ** Further properties: how the handlers compose *)

Lemma healthy_set_contacts (m : gmap string IAdminContact.t) (w : World) :
  healthy w → healthy (set_contacts m w).
Proof. done. Qed.

Lemma listing_forget (d : Db) :
  (λ ec, (ec_id ec, ec_contact ec)) <$> listing d
    ≡ₚ map_to_list (admincontacts d).
Proof.
  unfold listing. cbv zeta. rewrite enrich_forget.
  apply merge_sort_Permutation.
Qed.

Lemma listing_elem (d : Db) (ec : EnrichedContact) :
  ec ∈ listing d → admincontacts d !! ec_id ec = Some (ec_contact ec).
Proof.
  intros Hec. apply elem_of_map_to_list. rewrite <- listing_forget.
  apply list_elem_of_fmap. by exists ec.
Qed.

(** X10.  Adding a contact and deleting it again, by its returned id, gives
    back the database as it was (the generated id being one of 24 digits,
    as the ids of the sequence are while such ids are left). *)
Theorem add_then_delete (u u' : IUser.t) (n t e : string) (w : World) :
  is_admin u → is_admin u' → healthy w →
  trim n ≠ "" → trim t ≠ "" → trim e ≠ "" →
  castable (new_object_id (dom (admincontacts (db w)))) = true →
  ∃ (id : string) (doc : IAdminContact.t) (w1 w2 : World),
    addContact (Some u) (mkAddBody (Some n) (Some t) (Some e)) w =
      (Json 201 (ContactBody "Admin contact added successfully" (id, doc)),
       w1) ∧
    deleteContact (Some u') id w1 =
      (Json 200 (SuccessBody true "Contact deleted successfully"), w2) ∧
    db w2 = db w.
Proof.
  intros Hu Hu' Hw Hn Ht He Hid.
  rewrite addContact_run, healthy_head by done. cbv zeta.
  eexists _, _, _, _. split; [reflexivity|].
  rewrite deleteContact_run by done.
  rewrite healthy_head
    by (apply healthy_set_contacts, healthy_advance, Hw).
  simpl. rewrite lookup_insert_eq. split; [reflexivity|]. simpl.
  rewrite delete_insert_eq, delete_id by apply fresh_id_unused.
  by destruct w as [[m us] now fs].
Qed.

Lemma add_then_delete_witness :
  ∃ (id : string) (doc : IAdminContact.t) (w1 w2 : World),
    addContact (Some admin_user)
      (mkAddBody (Some "Dan") (Some "Advisor") (Some "dan@x")) sample_world =
      (Json 201 (ContactBody "Admin contact added successfully" (id, doc)),
       w1) ∧
    deleteContact (Some admin_user) id w1 =
      (Json 200 (SuccessBody true "Contact deleted successfully"), w2) ∧
    db w2 = db sample_world.
Proof.
  apply (add_then_delete admin_user admin_user "Dan" "Advisor" "dan@x"
           sample_world);
    [left; reflexivity | left; reflexivity | constructor
    | vm_compute; discriminate | vm_compute; discriminate
    | vm_compute; discriminate | vm_compute; reflexivity].
Defined.

(** X11.  A deleted contact is gone: after [deleteContact] has answered
    200 for an id, deleting that id again is answered 404; updating it is
    answered 404 for a payload the schema accepts and 500 for one it
    refuses; and the next [getContacts] does not list it. *)
Theorem delete_is_final (u u' : IUser.t) (id : string) (w : World) :
  is_admin u → is_admin u' → healthy w → castable id = true →
  is_Some (admincontacts (db w) !! id) →
  ∃ w1 : World,
    deleteContact (Some u) id w =
      (Json 200 (SuccessBody true "Contact deleted successfully"), w1) ∧
    (deleteContact (Some u') id w1).1 =
      Next (mkCustomError "Contact not found" 404) ∧
    (∀ updates, valid_update updates →
       (updateContact (Some u') id updates w1).1 =
         Next (mkCustomError "Contact not found" 404)) ∧
    (∀ updates, refused_update updates →
       (updateContact (Some u') id updates w1).1 =
         Next (mkCustomError "Failed to update contact" 500)) ∧
    ∃ l : list EnrichedContact,
      (getContacts w1).1 = Json 200 (ContactsBody l) ∧
      ∀ ec, ec ∈ l → ec_id ec ≠ id.
Proof.
  intros Hu Hu' Hw Hid [c Hc].
  rewrite deleteContact_run, healthy_head, Hc by done.
  eexists. split; [reflexivity|].
  assert (Hw1 : healthy (set_contacts (delete id (admincontacts (db w)))
                           (advance w)))
    by (apply healthy_set_contacts, healthy_advance, Hw).
  split; [|split; [|split]].
  - rewrite deleteContact_run, healthy_head by done.
    simpl. by rewrite lookup_delete_eq.
  - intros updates Hv. rewrite updateContact_run, healthy_head by done.
    simpl. by rewrite lookup_delete_eq.
  - intros updates Href. rewrite updateContact_refused; [done|done|by right].
  - exists (listing (db (set_contacts (delete id (admincontacts (db w)))
                           (advance w)))).
    rewrite getContacts_healthy by done. split; [done|].
    intros ec Hec <-. apply listing_elem in Hec. simpl in Hec.
    by rewrite lookup_delete_eq in Hec.
Qed.

Lemma delete_is_final_witness :
  ∃ w1 : World,
    deleteContact (Some admin_user) idB sample_world =
      (Json 200 (SuccessBody true "Contact deleted successfully"), w1) ∧
    (deleteContact (Some admin_user) idB w1).1 =
      Next (mkCustomError "Contact not found" 404) ∧
    (updateContact (Some admin_user) idB
       (mkUpdateBody (Some " ") None None None None) w1).1 =
      Next (mkCustomError "Failed to update contact" 500).
Proof.
  destruct (delete_is_final admin_user admin_user idB sample_world)
    as (w1 & Hr & Hagain & _ & Hrefused & _);
    [left; reflexivity | left; reflexivity | constructor | reflexivity
    | vm_compute; eexists; reflexivity |].
  exists w1. split; [exact Hr|]. split; [exact Hagain|].
  apply Hrefused. left. exists " ". split; vm_compute; reflexivity.
Defined.

Lemma listing_spec (d : Db) (id : string) (c : IAdminContact.t) :
  (∃ ec, ec ∈ listing d ∧ ec_id ec = id ∧ ec_contact ec = c) ↔
  admincontacts d !! id = Some c.
Proof.
  rewrite <- elem_of_map_to_list, <- listing_forget, list_elem_of_fmap. split.
  - intros (ec & Hec & <- & <-). by exists ec.
  - intros (ec & [= -> ->] & Hec). by exists ec.
Qed.

Lemma listing_length (d : Db) : length (listing d) = size (admincontacts d).
Proof.
  rewrite <- length_map_to_list, <- listing_forget. by rewrite length_fmap.
Qed.

Lemma listing_ids_NoDup (d : Db) : NoDup (ec_id <$> listing d).
Proof.
  assert (H : ec_id <$> listing d =
              ((λ ec, (ec_id ec, ec_contact ec)) <$> listing d).*1).
  { rewrite <- list_fmap_compose. done. }
  rewrite H, listing_forget. apply NoDup_fst_map_to_list.
Qed.

(** X12.  When its two queries are answered, [getContacts] lists every
    stored contact, under its id, once, and nothing else. *)
Theorem getContacts_lists_each_once (w : World) :
  healthy w →
  ∃ l : list EnrichedContact,
    (getContacts w).1 = Json 200 (ContactsBody l) ∧
    NoDup (ec_id <$> l) ∧
    length l = size (admincontacts (db w)) ∧
    ∀ id c, (∃ ec, ec ∈ l ∧ ec_id ec = id ∧ ec_contact ec = c) ↔
            admincontacts (db w) !! id = Some c.
Proof.
  intros Hw. exists (listing (db w)). rewrite getContacts_healthy by done.
  split; [done|]. split; [apply listing_ids_NoDup|].
  split; [apply listing_length | apply listing_spec].
Qed.

Lemma getContacts_lists_each_once_witness :
  ∃ l : list EnrichedContact,
    (getContacts sample_world).1 = Json 200 (ContactsBody l) ∧
    NoDup (ec_id <$> l) ∧ length l = 3%nat.
Proof.
  destruct (getContacts_lists_each_once sample_world) as (l & Hr & Hn & Hl & _);
    [constructor|].
  exists l. split; [exact Hr|]. split; [exact Hn|]. rewrite Hl.
  vm_compute. reflexivity.
Defined.

(** X13.  A contact that was added is listed: after [addContact] has
    answered 201, [getContacts] lists the created contact under the returned
    id, together with the contacts that were there, one entry more than
    before. *)
Theorem add_then_list (u : IUser.t) (n t e : string) (w : World) :
  is_admin u → healthy w → trim n ≠ "" → trim t ≠ "" → trim e ≠ "" →
  ∃ (id : string) (doc : IAdminContact.t) (w1 : World)
    (l : list EnrichedContact),
    addContact (Some u) (mkAddBody (Some n) (Some t) (Some e)) w =
      (Json 201 (ContactBody "Admin contact added successfully" (id, doc)),
       w1) ∧
    (getContacts w1).1 = Json 200 (ContactsBody l) ∧
    length l = S (size (admincontacts (db w))) ∧
    (∃ ec, ec ∈ l ∧ ec_id ec = id ∧ ec_contact ec = doc) ∧
    ∀ id' c', admincontacts (db w) !! id' = Some c' →
              ∃ ec, ec ∈ l ∧ ec_id ec = id' ∧ ec_contact ec = c'.
Proof.
  intros Hu Hw Hn Ht He.
  rewrite addContact_run, healthy_head by done. cbv zeta.
  eexists _, _, _, _. split; [reflexivity|].
  rewrite getContacts_healthy
    by (apply healthy_set_contacts, healthy_advance, Hw).
  split; [reflexivity|]. simpl.
  pose proof (fresh_id_unused (admincontacts (db w))) as Hfresh.
  split; [|split].
  - rewrite listing_length. simpl. by rewrite map_size_insert_None.
  - apply listing_spec. simpl. apply lookup_insert_eq.
  - intros id' c' Hc'. apply listing_spec. simpl.
    rewrite lookup_insert_ne; [done|]. intros <-. congruence.
Qed.

Lemma add_then_list_witness :
  ∃ (id : string) (doc : IAdminContact.t) (w1 : World)
    (l : list EnrichedContact),
    addContact (Some admin_user)
      (mkAddBody (Some "Dan") (Some "Advisor") (Some "dan@x")) sample_world =
      (Json 201 (ContactBody "Admin contact added successfully" (id, doc)),
       w1) ∧
    (getContacts w1).1 = Json 200 (ContactsBody l) ∧ length l = 4%nat.
Proof.
  destruct (add_then_list admin_user "Dan" "Advisor" "dan@x" sample_world)
    as (id & doc & w1 & l & Hr & Hl & Hlen & _);
    [left; reflexivity | constructor | vm_compute; discriminate
    | vm_compute; discriminate | vm_compute; discriminate |].
  exists id, doc, w1, l. split; [exact Hr|]. split; [exact Hl|].
  rewrite Hlen. vm_compute. reflexivity.
Defined.



(** X15.  Writing back what was read changes nothing but the time stamp:
    for a stored contact that keeps the schema, [updateContact] with the
    contact's own name, title and e-mail address answers 200 with the
    contact as it was, [updatedAt] apart. *)
Theorem update_with_stored_fields (u : IUser.t) (id : string)
    (c : IAdminContact.t) (w : World) :
  is_admin u → healthy w → castable id = true →
  admincontacts (db w) !! id = Some c → contact_clean c →
  ∃ (c' : IAdminContact.t) (w' : World),
    updateContact (Some u) id
      (mkUpdateBody (Some (IAdminContact.name c))
         (Some (IAdminContact.title c)) (Some (IAdminContact.email c))
         None None) w =
      (Json 200 (ContactBody "Contact updated successfully" (id, c')), w') ∧
    repositioned c c' ∧
    IAdminContact.position c' = IAdminContact.position c ∧
    admincontacts (db w') = <[id := c']> (admincontacts (db w)).
Proof.
  intros Hu Hw Hid Hc ([Hn Hn'] & [Ht Ht'] & [He He']).
  assert (Hv : valid_update
                 (mkUpdateBody (Some (IAdminContact.name c))
                    (Some (IAdminContact.title c))
                    (Some (IAdminContact.email c)) None None)).
  { split; [|split; [|split]]; [intros s [= <-]; congruence..|done]. }
  rewrite updateContact_run, healthy_head, Hc by done. cbv zeta.
  eexists _, _. split; [reflexivity|].
  unfold repositioned, same_origin. simpl. rewrite Hn', Ht', He'. done.
Qed.

Lemma update_with_stored_fields_witness :
  ∃ (c' : IAdminContact.t) (w' : World),
    updateContact (Some admin_user) idA
      (mkUpdateBody (Some "Ann") (Some "Coordinator") (Some "ann@x") None None)
      sample_world =
      (Json 200 (ContactBody "Contact updated successfully" (idA, c')), w') ∧
    IAdminContact.name c' = "Ann" ∧ IAdminContact.position c' = 5.
Proof.
  destruct (update_with_stored_fields admin_user idA
              (contact0 "Ann" "ann@x" 5) sample_world)
    as (c' & w' & Hr & (Hn & _) & Hp & _).
  - left. reflexivity.
  - constructor.
  - reflexivity.
  - vm_compute. reflexivity.
  - repeat split; vm_compute; congruence.
  - exists c', w'. split; [exact Hr|]. split; [exact Hn | exact Hp].
Defined.

(** ** Further properties: the admin e-mail lookup *)

(** X16.  [getAdminEmails] has no handler of its own for a rejected query:
    the exception of the driver reaches the caller.  When the query is
    answered the result depends on the user collection alone, so no
    mutation of the contact list changes it. *)
Theorem getAdminEmails_reads_users_only (w : World) :
  (head (faults w) = Some true →
   getAdminEmails w = (Throw DriverError, advance w)) ∧
  (healthy w →
   ∀ (op : AdminMutation) (user : option IUser.t) (fs : list bool),
     Forall (λ b, b = false) fs →
     (getAdminEmails
        (mkWorld (db (run_mutation op user w).2) (clock w) fs)).1 =
     (getAdminEmails w).1).
Proof.
  split.
  - intros Hf. unfold getAdminEmails, userModel.find_level_in, round_trip.
    unfold_handler. by rewrite Hf.
  - intros Hw op user fs Hfs.
    unfold getAdminEmails, userModel.find_level_in. unfold_handler.
    rewrite (round_trip_healthy w Hw).
    rewrite (round_trip_healthy (mkWorld _ _ fs) Hfs). simpl.
    by rewrite (proj1 (run_mutation_users_clock op user w)).
Qed.

Lemma getAdminEmails_reads_users_only_witness :
  getAdminEmails (faulty_world [true]) = (Throw DriverError, faulty_world []) ∧
  (getAdminEmails
     (mkWorld (db (run_mutation (DeleteContact idA) (Some admin_user)
                     sample_world).2) 100 [])).1 =
  (getAdminEmails sample_world).1.
Proof.
  destruct (getAdminEmails_reads_users_only (faulty_world [true])) as [Hthrow _].
  destruct (getAdminEmails_reads_users_only sample_world) as [_ Hsame].
  split.
  - apply Hthrow. reflexivity.
  - apply (Hsame (Forall_nil_2 _) (DeleteContact idA) (Some admin_user) []).
    constructor.
Defined.

(** ** Further properties: reordering, then listing *)

Lemma StronglySorted_lookup {A} (R : relation A) (l : list A) :
  (∀ i j x y, (i < j)%nat → l !! i = Some x → l !! j = Some y → R x y) →
  StronglySorted R l.
Proof.
  induction l as [|a l IH]; intros H; constructor.
  - apply IH. intros i j x y Hij Hx Hy. by apply (H (S i) (S j)); [lia|..].
  - apply Forall_forall. intros y [j Hy]%list_elem_of_lookup.
    by apply (H 0%nat (S j)); [lia|..].
Qed.

Lemma NoDup_not_later (ids : list string) (i : nat) (id : string) :
  NoDup ids → ids !! i = Some id → id ∉ drop (S i) ids.
Proof.
  intros Hnd Hi. rewrite <- (take_drop_middle ids i id Hi) in Hnd.
  apply NoDup_app in Hnd as (_ & _ & Hnd). by apply NoDup_cons in Hnd as [? _].
Qed.

(** A collection whose contacts sit at the indices of [ids] is listed in
    the order of [ids]. *)
Lemma sorted_by_assigned_positions (m : gmap string IAdminContact.t)
    (ids : list string) :
  NoDup ids →
  (∀ i id, ids !! i = Some id →
     ∃ c, m !! id = Some c ∧ IAdminContact.position c = Z.of_nat i) →
  (∀ id, is_Some (m !! id) → id ∈ ids) →
  (merge_sort le_position (map_to_list m)).*1 = ids.
Proof.
  intros Hnd Hpos Hdom.
  set (L := (λ id, (id, m !!! id)) <$> ids).
  assert (HL : ∀ i x, L !! i = Some x →
            ids !! i = Some x.1 ∧ m !! x.1 = Some x.2 ∧
            IAdminContact.position x.2 = Z.of_nat i).
  { intros i x Hx. unfold L in Hx. rewrite list_lookup_fmap in Hx.
    destruct (ids !! i) as [id|] eqn:Hi; [|done]. injection Hx as <-. simpl.
    destruct (Hpos i id Hi) as (c & Hc & Hp).
    rewrite (lookup_total_correct m id c Hc). done. }
  assert (Hfst : L.*1 = ids).
  { unfold L. rewrite <- list_fmap_compose.
    transitivity (id <$> ids); [|apply list_fmap_id].
    apply list_fmap_ext. by intros. }
  assert (Hin : ∀ x, x ∈ L ↔ x ∈ map_to_list m).
  { intros [id c]. rewrite elem_of_map_to_list. split.
    - intros [i Hi]%list_elem_of_lookup. by apply HL in Hi as (_ & ? & _).
    - intros Hc. apply list_elem_of_fmap. exists id.
      rewrite (lookup_total_correct m id c Hc). split; [done|].
      apply Hdom. by exists c. }
  assert (Hsorted : StronglySorted le_position L).
  { apply StronglySorted_lookup. intros i j x y Hij Hx Hy.
    apply HL in Hx as (_ & _ & Hx). apply HL in Hy as (_ & _ & Hy).
    unfold le_position. lia. }
  assert (Hperm : merge_sort le_position (map_to_list m) ≡ₚ L).
  { rewrite merge_sort_Permutation. symmetry.
    apply NoDup_Permutation; [|apply NoDup_map_to_list|done].
    apply (NoDup_fmap_1 fst). by rewrite Hfst. }
  assert (Heq : merge_sort le_position (map_to_list m) = L).
  { apply (StronglySorted_unique_strong le_position); [| |done|done].
    - intros x1 x2 H1 H2 H12 H21.
      rewrite Hperm in H1.
      apply list_elem_of_lookup in H1 as [i1 H1], H2 as [i2 H2].
      destruct (HL i1 x1 H1) as (Hid1 & Hc1 & Hp1).
      destruct (HL i2 x2 H2) as (Hid2 & Hc2 & Hp2).
      unfold le_position in *. assert (i1 = i2) as -> by lia.
      destruct x1 as [id1 c1], x2 as [id2 c2]. simpl in *.
      assert (id1 = id2) as -> by congruence. congruence.
    - apply StronglySorted_merge_sort; apply _. }
  by rewrite Heq.
Qed.

Lemma listing_ids (d : Db) :
  ec_id <$> listing d = (merge_sort le_position (map_to_list (admincontacts d))).*1.
Proof.
  unfold listing. cbv zeta. rewrite <- list_fmap_compose.
  apply list_fmap_ext. by intros i [id c] _.
Qed.

(** X17.  Reordering does what it is for: when the list names every stored
    contact once, by ids that can be cast, and the database accepts the
    updates and the queries, the next [getContacts] lists the contacts in
    the order of the list. *)
Theorem reorder_then_list (u : IUser.t) (ids : list string) (w : World) :
  is_admin u → healthy w → ids ≠ [] → NoDup ids →
  (∀ id, id ∈ ids → castable id = true) →
  (∀ id, id ∈ ids ↔ is_Some (admincontacts (db w) !! id)) →
  ∃ (w1 : World) (l : list EnrichedContact),
    reorderContacts (Some u) (Some ids) w =
      (Json 200 (MessageBody "Contacts reordered successfully"), w1) ∧
    (getContacts w1).1 = Json 200 (ContactsBody l) ∧
    ec_id <$> l = ids.
Proof.
  intros Hu Hw Hne Hnd Hcast Hall. destruct w as [[m us] now fs].
  unfold healthy in Hw. simpl in *. apply Forall_forall in Hcast.
  rewrite reorderContacts_healthy by done.
  eexists _, _. split; [reflexivity|].
  rewrite getContacts_healthy by (by apply Forall_drop).
  split; [reflexivity|]. simpl. rewrite listing_ids. simpl.
  apply sorted_by_assigned_positions; [done| |].
  - intros i id Hi.
    assert (Hid : is_Some (m !! id)).
    { apply Hall. by apply list_elem_of_lookup_2 in Hi. }
    destruct Hid as [c Hc].
    destruct (assign_positions_last now ids id 0 i m c Hi
                (NoDup_not_later ids i id Hnd Hi) Hc) as (c' & Hc' & Hp & _).
    exists c'. done.
  - intros id [c' Hc']. apply Hall.
    pose proof (assign_positions_carried now ids 0 m id) as Hk.
    destruct (m !! id) as [c|]; [by exists c | congruence].
Qed.

Lemma reorder_then_list_witness :
  ∃ (w1 : World) (l : list EnrichedContact),
    reorderContacts (Some admin_user) (Some [idC; idA; idB]) sample_world =
      (Json 200 (MessageBody "Contacts reordered successfully"), w1) ∧
    (getContacts w1).1 = Json 200 (ContactsBody l) ∧
    ec_id <$> l = [idC; idA; idB].
Proof.
  apply (reorder_then_list admin_user [idC; idA; idB] sample_world).
  - left. reflexivity.
  - constructor.
  - discriminate.
  - apply (bool_decide_unpack (NoDup [idC; idA; idB])). vm_compute.
    reflexivity.
  - intros id Hid. rewrite !elem_of_cons, elem_of_nil in Hid.
    by destruct Hid as [->|[->|[->|[]]]].
  - intros id. split.
    + intros Hid. repeat (apply elem_of_cons in Hid as [->|Hid];
        [vm_compute; eexists; reflexivity|]). by apply elem_of_nil in Hid.
    + intros [c Hc]. simpl in Hc.
      apply lookup_insert_Some in Hc as [[<- _]|[_ Hc]]; [in_list|].
      apply lookup_insert_Some in Hc as [[<- _]|[_ Hc]]; [in_list|].
      apply lookup_insert_Some in Hc as [[<- _]|[_ Hc]]; [in_list|].
      by rewrite lookup_empty in Hc.
Defined.

(** ** Further properties: where a new contact is listed *)

Lemma StronglySorted_lookup_le {A} (R : relation A) (l : list A) :
  StronglySorted R l →
  ∀ i j x y, (i < j)%nat → l !! i = Some x → l !! j = Some y → R x y.
Proof.
  induction 1 as [|a l Hl IH Ha]; intros i j x y Hij Hx Hy; [done|].
  destruct j as [|j]; [lia|]. destruct i as [|i]; simpl in *.
  - injection Hx as <-. rewrite Forall_forall in Ha.
    by apply Ha, (list_elem_of_lookup_2 l j).
  - apply (IH i j); [lia|done..].
Qed.

Lemma listing_sorted (d : Db) : StronglySorted by_position (listing d).
Proof.
  unfold listing. cbv zeta.
  apply (StronglySorted_fmap _ le_position); [done|].
  apply StronglySorted_merge_sort; apply _.
Qed.

(** X18.  A new contact is stored at position 0, so the next [getContacts]
    lists it before every contact whose position is positive. *)
Theorem added_contact_listed_first (u : IUser.t) (n t e : string) (w : World) :
  is_admin u → healthy w → trim n ≠ "" → trim t ≠ "" → trim e ≠ "" →
  ∃ (id : string) (doc : IAdminContact.t) (w1 : World)
    (l : list EnrichedContact),
    addContact (Some u) (mkAddBody (Some n) (Some t) (Some e)) w =
      (Json 201 (ContactBody "Admin contact added successfully" (id, doc)),
       w1) ∧
    (getContacts w1).1 = Json 200 (ContactsBody l) ∧
    ∀ (i j : nat) (ec ec' : EnrichedContact),
      l !! i = Some ec → ec_id ec = id →
      l !! j = Some ec' → 0 < IAdminContact.position (ec_contact ec') →
      (i < j)%nat.
Proof.
  intros Hu Hw Hn Ht He.
  rewrite addContact_run, healthy_head by done. cbv zeta.
  eexists _, _, _, _. split; [reflexivity|].
  rewrite getContacts_healthy
    by (apply healthy_set_contacts, healthy_advance, Hw).
  split; [reflexivity|]. simpl.
  intros i j ec ec' Hi Hid Hj Hpos.
  assert (Hzero : IAdminContact.position (ec_contact ec) = 0).
  { pose proof (listing_elem _ ec (list_elem_of_lookup_2 _ _ _ Hi)) as Hec.
    simpl in Hec. rewrite Hid, lookup_insert_eq in Hec.
    by injection Hec as <-. }
  destruct (decide (i < j)%nat) as [|Hge]; [done|]. exfalso.
  destruct (decide (i = j)) as [->|Hne].
  - assert (ec = ec') as -> by congruence. lia.
  - pose proof (StronglySorted_lookup_le by_position _ (listing_sorted _)
                  j i ec' ec ltac:(lia) Hj Hi) as Hle.
    unfold by_position in Hle. lia.
Qed.

Lemma added_contact_listed_first_witness :
  ∃ (id : string) (doc : IAdminContact.t) (w1 : World)
    (l : list EnrichedContact),
    addContact (Some admin_user)
      (mkAddBody (Some "Dan") (Some "Advisor") (Some "dan@x")) sample_world =
      (Json 201 (ContactBody "Admin contact added successfully" (id, doc)),
       w1) ∧
    (getContacts w1).1 = Json 200 (ContactsBody l) ∧
    ec_id <$> l !! 0%nat = Some id.
Proof.
  destruct (added_contact_listed_first admin_user "Dan" "Advisor" "dan@x"
              sample_world)
    as (id & doc & w1 & l & Hr & Hl & _);
    [left; reflexivity | constructor | vm_compute; discriminate
    | vm_compute; discriminate | vm_compute; discriminate |].
  exists id, doc, w1, l. split; [exact Hr|]. split; [exact Hl|].
  vm_compute in Hr. injection Hr as <- <- <-.
  vm_compute in Hl. injection Hl as <-. reflexivity.
Defined.
